(** * The rule application engine of [firstbase.rule_applier]

    A shallow embedding of [RuleApplier] (src/firstbase/rule_applier.py):
    the loader [_load_rules], the dispatch loop [apply_rules] and the four
    handlers [_apply_anomaly_flag], [_apply_imputation],
    [_apply_format_string] and [_apply_transformation].

    - A table cell is a Python object ([cell]); a column is the list of its
      cells; a DataFrame is a finite map from column names to columns.
    - Python floats are IEEE binary64 numbers: the kernel's primitive floats.
    - DataFrames live in a heap and are passed by reference, as in Python:
      the handlers mutate the frame they are given, and [apply_rules] works
      on the frame allocated by [df.copy(deep=True)].
    - Exceptions are an explicit outcome of every computation.
    - What the code borrows from Python and pandas without defining it (the
      [re] engine, [str] of a float, [%]-formatting, [float] of a string) is
      an interface, [PyRuntime]; a small executable instance of it is given
      at the end to run the engine on concrete tables. *)

From Stdlib Require Import ZArith String Ascii List Bool Floats DecimalString Lia.
From stdpp Require Import base option list gmap strings.

Set Warnings "-inexact-float".
Local Open Scope string_scope.

(** ** Python values *)

(** The objects a cell holds: [None], a float (NaN included), a bool or a
    string. Numeric columns are float64, as pandas reads a numeric CSV column
    with missing values. *)
Inductive cell :=
  | CNone
  | CFloat (x : float)
  | CBool (b : bool)
  | CStr (s : string).

Inductive exn :=
  | FileNotFoundError
  | KeyError (key : string)
  | TypeError
  | ValueError
  | JSONDecodeError   (* json.JSONDecodeError, a ValueError *)
  | ReError.   (* re.error *)

(** A computation with no effect on the heap that may raise. *)
Inductive result (A : Type) :=
  | Ok (a : A)
  | Err (e : exn).
Arguments Ok {A} a.
Arguments Err {A} e.

#[global] Instance result_ret : MRet result := @Ok.
#[global] Instance result_bind : MBind result := fun A B f r =>
  match r with
  | Ok a => f a
  | Err e => Err e
  end.
#[global] Instance result_fmap : FMap result := fun A B f r =>
  match r with
  | Ok a => Ok (f a)
  | Err e => Err e
  end.

(** [[f(x) for x in xs]], stopping at the first exception. *)
Fixpoint map_result {A B} (f : A → result B) (xs : list A) : result (list B) :=
  match xs with
  | [] => Ok []
  | x :: xs' => y ← f x; ys ← map_result f xs'; Ok (y :: ys)
  end.

(** [pd.isna] / [pd.notna] on one cell. *)
Definition isna (c : cell) : bool :=
  match c with
  | CNone => true
  | CFloat x => PrimFloat.is_nan x
  | _ => false
  end.
Definition notna (c : cell) : bool := negb (isna c).

Definition nan : float := PrimFloat.nan.

(** ** The Python runtime the engine relies on *)

Class PyRuntime := {
  (** a compiled pattern *)
  regex : Type;
  (** [re.compile(p)]; [None] when it raises [re.error] *)
  re_compile : string → option regex;
  (** [rx.match(s) is not None]: a match anchored at the start of [s] *)
  re_match : regex → string → bool;
  (** [rx.sub(repl, s)]; [None] when the template is refused ([re.error]) *)
  re_sub : regex → string → string → option string;
  (** [str(x)] of a float *)
  float_str : float → string;
  (** [fmt % x] for a float [x]; [None] when it raises *)
  percent_format : string → float → option string;
  (** [float(s)]; [None] when it raises [ValueError] *)
  float_of_str : string → option float;
}.

(** ** Tables, rules and log entries *)

(** A DataFrame: its columns by name (all of one length, the number of
    rows). *)
Abbreviation frame := (gmap string (list cell)).

(** One rule of the rules file, a JSON object read through [rule.get]: a
    field is [None] when the key is absent. *)
Record rule := {
  r_rule_type : option string;
  r_columns : option (list string);
  r_pattern : option string;
  r_replacement : option string;
  r_rule_id : option string;
  r_description : option string;
  r_reasoning : option string;
  r_flag_on_match : option bool;
}.

(** One entry of the execution log; an entry carries [flagged_count] or
    [imputed_count] only where its handler writes that key. *)
Record log_entry := {
  e_rule_id : option string;
  e_type : string;
  e_column : string;
  e_flagged_count : option nat;
  e_imputed_count : option nat;
  e_description : string;
  e_reasoning : string;
}.

(** ** The heap and the monad of the engine *)

(** References to DataFrames. *)
Abbreviation loc := nat.

(** What [logger.warning] is called with. *)
Inductive warning :=
  | NoColumns (rule_id : option string)
  | ColumnMissing (col : string) (rule_id : option string)
  | UnknownRuleType (rule_type : string) (rule_id : option string)
  | FormatStringFailed (rule_id : option string) (col : string) (exc : exn).

(** The heap: the DataFrames alive, the log list of the running call, and
    the warnings sent to the logger so far. *)
Record state := {
  frames : gmap loc frame;
  log : list log_entry;
  warnings : list warning;
}.

Inductive outcome (A : Type) :=
  | Returns (a : A) (σ : state)
  | Raises (e : exn) (σ : state).
Arguments Returns {A} a σ.
Arguments Raises {A} e σ.

Definition M (A : Type) : Type := state → outcome A.

#[global] Instance M_ret : MRet M := fun A a σ => Returns a σ.
#[global] Instance M_bind : MBind M := fun A B f m σ =>
  match m σ with
  | Returns a σ' => f a σ'
  | Raises e σ' => Raises e σ'
  end.

Definition raise {A} (e : exn) : M A := fun σ => Raises e σ.

Definition lift {A} (r : result A) : M A := fun σ =>
  match r with
  | Ok a => Returns a σ
  | Err e => Raises e σ
  end.

(** [try: body except Exception as exc: handler(exc)]; what [body] wrote
    before it raised stays written. *)
Definition try_except {A} (body : M A) (handler : exn → M A) : M A := fun σ =>
  match body σ with
  | Returns a σ' => Returns a σ'
  | Raises e σ' => handler e σ'
  end.

(** [for x in xs: body(x)] *)
Fixpoint for_each {A} (xs : list A) (body : A → M unit) : M unit :=
  match xs with
  | [] => mret tt
  | x :: xs' => body x;; for_each xs' body
  end.

(** Reading through a reference. A dangling reference does not exist in
    Python; the model raises on it. *)
Definition deref (df : loc) : M frame := fun σ =>
  match frames σ !! df with
  | Some f => Returns f σ
  | None => Raises TypeError σ
  end.

Definition store (df : loc) (f : frame) : M unit := fun σ =>
  Returns tt {| frames := <[df := f]> (frames σ); log := log σ;
               warnings := warnings σ |}.

(** [col in df.columns] *)
Definition has_column (df : loc) (col : string) : M bool :=
  f ← deref df; mret (bool_decide (is_Some (f !! col))).

(** [df[col]] *)
Definition getitem (df : loc) (col : string) : M (list cell) :=
  f ← deref df;
  match f !! col with
  | Some c => mret c
  | None => raise (KeyError col)
  end.

(** [df[col] = values]: writes into the frame [df] refers to. *)
Definition setitem (df : loc) (col : string) (values : list cell) : M unit :=
  f ← deref df; store df (<[col := values]> f).

(** [df.copy(deep=True)]: a new frame with the same content, at a reference
    not in use. *)
Definition copy_deep (df : loc) : M loc := fun σ =>
  match frames σ !! df with
  | Some f =>
      let new := fresh (dom (frames σ)) in
      Returns new {| frames := <[new := f]> (frames σ); log := log σ;
                     warnings := warnings σ |}
  | None => Raises TypeError σ
  end.

(** [log = []] *)
Definition log_new : M unit := fun σ =>
  Returns tt {| frames := frames σ; log := []; warnings := warnings σ |}.

(** [log.append(entry)] *)
Definition log_append (entry : log_entry) : M unit := fun σ =>
  Returns tt {| frames := frames σ; log := log σ ++ [entry];
               warnings := warnings σ |}.

Definition get_log : M (list log_entry) := fun σ => Returns (log σ) σ.

(** [logger.warning(...)] *)
Definition warn (w : warning) : M unit := fun σ =>
  Returns tt {| frames := frames σ; log := log σ;
               warnings := warnings σ ++ [w] |}.

(** ** Python and pandas operations used by the handlers *)

(** [s.lower()], on ASCII letters. (Outside ASCII only the Kelvin sign
    lowers to an ASCII letter, [k], which no rule type contains.) *)
Definition ascii_lower (c : ascii) : ascii :=
  let n := nat_of_ascii c in
  if Nat.leb 65 n && Nat.leb n 90 then ascii_of_nat (n + 32) else c.

Fixpoint lower (s : string) : string :=
  match s with
  | EmptyString => EmptyString
  | String c s' => String (ascii_lower c) (lower s')
  end.

(** [f"{x}"] of an optional string: [None] prints as ["None"]. *)
Definition fstring (x : option string) : string := default "None" x.

(** ["%" in s] *)
Fixpoint contains_percent (s : string) : bool :=
  match s with
  | EmptyString => false
  | String c s' => Ascii.eqb c "%"%char || contains_percent s'
  end.

(** [int(mask.sum())] *)
Definition mask_sum (mask : list bool) : nat := sum_list (Nat.b2n <$> mask).

(** A column is float64 when all its cells are floats. *)
Definition is_float (c : cell) : bool :=
  match c with
  | CFloat _ => true
  | _ => false
  end.
Definition is_float64 (s : list cell) : bool := forallb is_float s.

(** The column pandas makes of the values a function returned, as
    [Series.apply] does: where they are floats and [None], one of them at
    least a float, the column is float64 and holds NaN for [None]; any
    other mix of values is kept as it is, in an object column. *)
Definition is_none (c : cell) : bool :=
  match c with
  | CNone => true
  | _ => false
  end.
Definition infer_dtype (ys : list cell) : list cell :=
  if forallb (fun c => is_float c || is_none c) ys && existsb is_float ys
  then (fun c => if is_none c then CFloat nan else c) <$> ys
  else ys.

(** [s.apply(func)] *)
Definition series_apply (func : cell → result cell) (s : list cell)
  : result (list cell) :=
  ys ← map_result func s; Ok (infer_dtype ys).

(** The float64 values of a numeric column. The numeric steps of the
    handlers are modelled on float64 columns; on a column holding anything
    else they raise [TypeError] here (pandas' own behaviour on object
    columns depends on their content and on its version). *)
Definition to_float64 (xs : list cell) : result (list float) :=
  map_result (fun c => match c with CFloat x => Ok x | _ => Err TypeError end) xs.

(** [np.rint]: round half to even, by adding and removing 2^52. *)
Definition two52 : float := 0x1p52%float.
Definition rint (x : float) : float :=
  let a := PrimFloat.abs x in
  if PrimFloat.ltb a two52 then
    let r := PrimFloat.sub (PrimFloat.add a two52) two52 in
    if PrimFloat.get_sign x then PrimFloat.opp r else r
  else x.

(** [Series.round(2)] on float64 is numpy's: [rint(x * 100) / 100]. *)
Definition round2 (x : float) : float :=
  PrimFloat.div (rint (PrimFloat.mul x 100%float)) 100%float.

(** Sorting floats, for the median. *)
Fixpoint insert_sorted (x : float) (xs : list float) : list float :=
  match xs with
  | [] => [x]
  | y :: ys => if PrimFloat.leb x y then x :: xs else y :: insert_sorted x ys
  end.
Definition sort_floats (xs : list float) : list float :=
  foldr insert_sorted [] xs.

(** [Series.median()] of float64 values: NaN is skipped; the middle value,
    or the mean of the two middle values; NaN when nothing is left. *)
Definition median (xs : list float) : float :=
  let s := sort_floats (List.filter (fun x => negb (PrimFloat.is_nan x)) xs) in
  let n := length s in
  if Nat.eqb n 0 then nan
  else if Nat.odd n then nth (n / 2) s nan
  else PrimFloat.div (PrimFloat.add (nth (n / 2 - 1) s nan) (nth (n / 2) s nan)) 2%float.

(** Python's [==] between two cells, as grouping uses it. *)
Definition bool_float (b : bool) : float := if b then 1%float else 0%float.
Definition cell_eqb (a b : cell) : bool :=
  match a, b with
  | CNone, CNone => true
  | CFloat x, CFloat y => PrimFloat.eqb x y
  | CBool x, CBool y => Bool.eqb x y
  | CStr s, CStr t => String.eqb s t
  | CFloat x, CBool y | CBool y, CFloat x => PrimFloat.eqb x (bool_float y)
  | _, _ => false
  end.

(** The keys of [df.groupby(key_col)]: the distinct non-missing values. *)
Fixpoint group_keys (keys : list cell) : list cell :=
  match keys with
  | [] => []
  | k :: ks =>
      let rest := group_keys ks in
      if isna k || existsb (cell_eqb k) rest then rest else k :: rest
  end.

(** The values of [col] in the group of [key]: the rows whose key equals
    it. *)
Definition group_values (keys : list cell) (vals : list float) (key : cell)
  : list float :=
  snd <$> List.filter (fun kv => cell_eqb (fst kv) key) (zip keys vals).

(** [df.groupby(key_col)[col].median()]: the median of [col] in each group. *)
Definition groupby_median (keys : list cell) (vals : list float)
  : list (cell * float) :=
  (fun k => (k, median (group_values keys vals k))) <$> group_keys keys.

(** The entry of [key] in [medians], NaN where there is none. *)
Definition map_lookup (medians : list (cell * float)) (key : cell) : float :=
  match List.find (fun kv => cell_eqb (fst kv) key) medians with
  | Some kv => snd kv
  | None => nan
  end.

(** [s.map(medians)] *)
Definition series_map (medians : list (cell * float)) (s : list cell)
  : list cell :=
  (fun k => CFloat (map_lookup medians k)) <$> s.

(** [s.fillna(v)] *)
Definition fillna (v : float) (s : list cell) : list cell :=
  (fun c => if isna c then CFloat v else c) <$> s.

(** [s.loc[mask]]: the rows selected by a boolean mask. *)
Fixpoint loc_select {A} (mask : list bool) (s : list A) : list A :=
  match mask, s with
  | m :: mask', x :: s' => if m then x :: loc_select mask' s' else loc_select mask' s'
  | _, _ => []
  end.

(** [df.loc[mask, col] = values], [values] holding one value per selected
    row, in row order. *)
Fixpoint loc_assign (mask : list bool) (values : list cell) (s : list cell)
  : list cell :=
  match mask, s with
  | true :: mask', x :: s' =>
      match values with
      | v :: values' => v :: loc_assign mask' values' s'
      | [] => x :: loc_assign mask' [] s'
      end
  | false :: mask', x :: s' => x :: loc_assign mask' values s'
  | _, _ => s
  end.

(** [df.loc[mask, col] = value], one scalar for every selected row. *)
Definition loc_assign_scalar (mask : list bool) (value : cell) (s : list cell)
  : list cell :=
  zip_with (fun (m : bool) x => if m then value else x) mask s.

(** [RuleType], a [StrEnum]: its members compare equal to their strings. *)
Module RuleType.
Definition ANOMALY_FLAG : string := "anomaly_flag".
Definition IMPUTATION : string := "imputation".
Definition TRANSFORMATION : string := "transformation".
Definition FORMAT_STRING : string := "format_string".
End RuleType.

Section Engine.
Context `{RT : PyRuntime}.

(** [str(x)] of a cell. *)
Definition py_str (c : cell) : string :=
  match c with
  | CNone => "None"
  | CFloat x => float_str x
  | CBool b => if b then "True" else "False"
  | CStr s => s
  end.

(** [s.astype(str)]: every cell, missing ones too, becomes its text. *)
Definition astype_str (s : list cell) : list string := py_str <$> s.

(** [s.str.match(pattern, na=False)]: the pattern is compiled first, then
    matched at the start of every value. *)
Definition str_match (pattern : option string) (s : list string)
  : result (list bool) :=
  match pattern with
  | None => Err TypeError
  | Some p =>
      match re_compile p with
      | None => Err ReError
      | Some rx => Ok (re_match rx <$> s)
      end
  end.

(** [s.str.replace(pattern, replacement, regex=True)]: the pattern is
    compiled first, whatever the number of rows. *)
Definition str_replace (pattern replacement : option string) (s : list string)
  : result (list string) :=
  match replacement with
  | None => Err TypeError
  | Some repl =>
      match pattern with
      | None => Err TypeError
      | Some p =>
          match re_compile p with
          | None => Err ReError
          | Some rx =>
              map_result (fun x => match re_sub rx repl x with
                                   | Some y => Ok y
                                   | None => Err ReError
                                   end) s
          end
      end
  end.

(** [float(x)] of a cell. *)
Definition py_float (c : cell) : result float :=
  match c with
  | CNone => Err TypeError
  | CFloat x => Ok x
  | CBool b => Ok (bool_float b)
  | CStr s => match float_of_str s with Some x => Ok x | None => Err ValueError end
  end.

(** [replacement % x] *)
Definition py_percent (replacement : string) (x : float) : result string :=
  match percent_format replacement x with
  | Some s => Ok s
  | None => Err TypeError
  end.

(** [float(s)] of a string. *)
Definition py_float_str (s : string) : result float :=
  match float_of_str s with
  | Some x => Ok x
  | None => Err ValueError
  end.

(** ** The handlers *)

(** The tolerance of the arithmetic check: one cent. *)
Definition tol : float := 0.01%float.

(** [RuleApplier._apply_anomaly_flag] *)
Definition _apply_anomaly_flag (df : loc) (col : string)
    (pattern rule_id : option string) (description reasoning : string)
    (flag_on_match : bool) : M unit :=
  let flag_col := col +:+ "_flag_" +:+ fstring rule_id in
  mask_invalid ←
    (if decide (rule_id = Some "flag_total_spent_mismatch") then
       price ← getitem df "Price Per Unit";
       quantity ← getitem df "Quantity";
       p ← lift (to_float64 price);
       q ← lift (to_float64 quantity);
       let expected := round2 <$> zip_with PrimFloat.mul p q in
       c ← getitem df col;
       t ← lift (to_float64 c);
       mret ((fun d => PrimFloat.ltb tol (PrimFloat.abs d))
               <$> zip_with PrimFloat.sub t expected)
     else
       c ← getitem df col;
       match_mask ← lift (str_match pattern (astype_str c));
       mret (if flag_on_match then match_mask else negb <$> match_mask));
  setitem df flag_col (CBool <$> mask_invalid);;
  log_append {| e_rule_id := rule_id; e_type := "anomaly_flag";
                e_column := col;
                e_flagged_count := Some (mask_sum mask_invalid);
                e_imputed_count := None;
                e_description := description; e_reasoning := reasoning |}.

(** The value [df.loc[mask, col] = replacement] writes into the column
    [s]: the literal string, or, when the rule has no replacement, a missing
    value, which a float64 column stores as NaN. *)
Definition literal (replacement : option string) (s : list cell) : cell :=
  match replacement with
  | Some r => CStr r
  | None => if is_float64 s then CFloat nan else CNone
  end.

(** [RuleApplier._apply_imputation] *)
Definition _apply_imputation (df : loc) (col : string)
    (pattern replacement rule_id : option string)
    (description reasoning : string) : M unit :=
  c ← getitem df col;
  mask_missing ← lift (str_match pattern (astype_str c));
  (if decide (replacement = Some "[Price Per Unit] * [Quantity]") then
     price ← getitem df "Price Per Unit";
     quantity ← getitem df "Quantity";
     let valid :=
       zip_with andb (zip_with andb (notna <$> price) (notna <$> quantity))
                mask_missing in
     p ← lift (to_float64 (loc_select valid price));
     q ← lift (to_float64 (loc_select valid quantity));
     c ← getitem df col;
     setitem df col (loc_assign valid (CFloat <$> zip_with PrimFloat.mul p q) c)
   else if decide (replacement = Some "<MEDIAN_FROM_GROUP_OR_GLOBAL>") then
     has_item ← has_column df "Item";
     (if has_item : bool then
        item ← getitem df "Item";
        c ← getitem df col;
        v ← lift (to_float64 c);
        let medians := groupby_median item v in
        setitem df col
          (loc_assign mask_missing
             (series_map medians (loc_select mask_missing item)) c)
      else mret tt);;
     (* df[col].fillna(df[col].median(), inplace=True): without
        copy-on-write, df[col] is the column itself and the fill reaches
        the frame *)
     c ← getitem df col;
     v ← lift (to_float64 c);
     setitem df col (fillna (median v) c)
   else
     c ← getitem df col;
     setitem df col (loc_assign_scalar mask_missing (literal replacement c) c));;
  log_append {| e_rule_id := rule_id; e_type := "imputation";
                e_column := col;
                e_flagged_count := None;
                e_imputed_count := Some (mask_sum mask_missing);
                e_description := description; e_reasoning := reasoning |}.

(** [float(replacement % float(x))] *)
Definition formatted (replacement : string) (x : cell) : result float :=
  f ← py_float x;
  s ← py_percent replacement f;
  py_float_str s.

(** [lambda x: float(replacement % float(x)) if pd.notna(x) else x] *)
Definition format_numeric (replacement : string) (x : cell) : result cell :=
  if notna x then
    g ← formatted replacement x;
    Ok (CFloat g)
  else Ok x.

(** [lambda x: replacement % float(x)] *)
Definition format_text (replacement : string) (x : cell) : result cell :=
  f ← py_float x;
  s ← py_percent replacement f;
  Ok (CStr s).

(** [if pattern:] a pattern that is present and not empty. *)
Definition truthy (pattern : option string) : bool :=
  match pattern with
  | Some (String _ _) => true
  | _ => false
  end.

(** [RuleApplier._apply_format_string] *)
Definition _apply_format_string (df : loc) (col : string)
    (pattern replacement rule_id : option string)
    (description reasoning : string) : M unit :=
  try_except
    (match replacement with
     | None => raise TypeError   (* "%" in None *)
     | Some repl =>
         if contains_percent repl then
           (* numeric %-formatting (keep as float) *)
           c ← getitem df col;
           c' ← lift (series_apply (format_numeric repl) c);
           setitem df col c'
         else if truthy pattern then
           c ← getitem df col;
           c' ← lift (str_replace pattern replacement (astype_str c));
           setitem df col (CStr <$> c')
         else
           c ← getitem df col;
           c' ← lift (series_apply (format_text repl) c);
           setitem df col c'
     end)
    (fun exc => warn (FormatStringFailed rule_id col exc));;
  log_append {| e_rule_id := rule_id; e_type := "format_string";
                e_column := col;
                e_flagged_count := None; e_imputed_count := None;
                e_description := description; e_reasoning := reasoning |}.

(** [RuleApplier._apply_transformation] *)
Definition _apply_transformation (df : loc) (col : string)
    (pattern replacement rule_id : option string)
    (description reasoning : string) : M unit :=
  c ← getitem df col;
  c' ← lift (str_replace pattern replacement (astype_str c));
  setitem df col (CStr <$> c');;
  log_append {| e_rule_id := rule_id; e_type := "transformation";
                e_column := col;
                e_flagged_count := None; e_imputed_count := None;
                e_description := description; e_reasoning := reasoning |}.

(** ** The dispatch loop *)

(** The body of [for col in cols:] in [apply_rules]. *)
Definition rule_on_column (df : loc) (rule_type : string)
    (pattern replacement rule_id : option string)
    (description reasoning : string) (flag_on_match : bool)
    (col : string) : M unit :=
  present ← has_column df col;
  if negb present then
    warn (ColumnMissing col rule_id)   (* continue *)
  else if decide (rule_type = RuleType.ANOMALY_FLAG) then
    _apply_anomaly_flag df col pattern rule_id description reasoning
                        flag_on_match
  else if decide (rule_type = RuleType.IMPUTATION) then
    _apply_imputation df col pattern replacement rule_id description reasoning
  else if decide (rule_type = RuleType.FORMAT_STRING) then
    _apply_format_string df col pattern replacement rule_id description
                         reasoning
  else if decide (rule_type = RuleType.TRANSFORMATION) then
    _apply_transformation df col pattern replacement rule_id description
                          reasoning
  else
    warn (UnknownRuleType rule_type rule_id).

(** The body of [for rule in self.rules:] in [apply_rules]. *)
Definition rule_body (df : loc) (rule : rule) : M unit :=
  let rule_type := lower (default "transformation" (r_rule_type rule)) in
  let cols := default [] (r_columns rule) in
  let pattern := r_pattern rule in
  let replacement := r_replacement rule in
  let rule_id := r_rule_id rule in
  let description := default "" (r_description rule) in
  let reasoning := default "" (r_reasoning rule) in
  let flag_on_match := default false (r_flag_on_match rule) in
  match cols with
  | [] => warn (NoColumns rule_id)   (* continue *)
  | _ =>
      for_each cols
        (rule_on_column df rule_type pattern replacement rule_id description
                        reasoning flag_on_match)
  end.

(** A [RuleApplier] object. *)
Record RuleApplier := {
  rules_path : string;
  rules : list rule;
}.

(** [RuleApplier.apply_rules]: returns the reference to the cleaned copy
    and the log. *)
Definition apply_rules (self : RuleApplier) (df : loc)
  : M (loc * list log_entry) :=
  df ← copy_deep df;
  log_new;;
  for_each (rules self) (rule_body df);;
  log ← get_log;
  mret (df, log).

End Engine.

(** ** Loading the rules file *)

(** What [json.load] returns: a dict for a JSON object, or a list, a string,
    a number, a bool or [None]. Of a dict the model keeps the keys bound
    to a list of rule objects, as [rules] is in a rules file; a top-level
    list is a list of rule objects. *)
Inductive payload :=
  | JObject (members : gmap string (list rule))
  | JArray (items : list rule)
  | JString (s : string)
  | JNumber (x : float)
  | JBool (b : bool)
  | JNull.

(** A file as [json.load] finds it: text that is not JSON, or the text of
    a JSON value. *)
Inductive file :=
  | NotJSON
  | JSON (value : payload).

(** The files that exist, by path. *)
Abbreviation filesystem := (gmap string file).






(** ** A reference runtime

    An executable instance of [PyRuntime], to run the engine on concrete
    tables: the text of a float is its shortest decimal that reads back
    ([repr]), [%]-formatting knows the conversion [%f], [float] reads
    decimal numbers, and the patterns are the literal ones. *)

Module PyRef.

Local Open Scope Z_scope.

(** *** Decimal text of binary64 numbers, in exact integer arithmetic *)

(** A positive rational [num / den]. *)
Record rat := { num : Z; den : Z }.

(** [m * 2^e * 10^k] as a fraction. *)
Definition scaled (m e k : Z) : rat :=
  {| num := m * 2 ^ Z.max e 0 * 10 ^ Z.max k 0;
     den := 2 ^ Z.max (- e) 0 * 10 ^ Z.max (- k) 0 |}.

Definition rat_floor (r : rat) : Z := num r / den r.

(** Rounding to the nearest integer, ties to even. *)
Definition rat_round (r : rat) : Z :=
  let q := num r / den r in
  let twice := 2 * (num r mod den r) in
  if twice <? den r then q
  else if den r <? twice then q + 1
  else if Z.even q then q else q + 1.

Definition digits (n : Z) : string := NilZero.string_of_uint (N.to_uint (Z.to_N n)).

Fixpoint zeros (n : nat) : string :=
  match n with
  | O => ""
  | S n' => String "0" (zeros n')
  end.

Definition strlen (s : string) : Z := Z.of_nat (String.length s).
Definition take (n : Z) (s : string) : string := substring 0 (Z.to_nat n) s.
Definition drop (n : Z) (s : string) : string :=
  substring (Z.to_nat n) (String.length s - Z.to_nat n) s.

(** [10^j <= m * 2^e] *)
Definition pow10_le (m e j : Z) : bool :=
  let r := scaled m e (- j) in den r <=? num r.

(** The decimal exponent of [m * 2^e]: the largest [j] with
    [10^j <= m * 2^e]. *)
Fixpoint climb (fuel : nat) (m e j : Z) : Z :=
  match fuel with
  | O => j
  | S fuel' => if pow10_le m e (j + 1) then climb fuel' m e (j + 1) else j
  end.
Definition exponent10 (m e : Z) : Z :=
  climb 4 m e ((Z.log2 m + e) * 30103 / 100000 - 2).

(** The numbers that read back as the float [m * 2^e] lie between the
    midpoints to its two neighbours, the midpoints included when [m] is
    even. In units of [2^(e-2)] the float is [4m]. *)
Definition lower_mid (m e : Z) : Z :=
  if (m =? 2 ^ 52) && (-1074 <? e) then 4 * m - 1 else 4 * m - 2.
Definition upper_mid (m : Z) : Z := 4 * m + 2.

(** Whether [c * 10^k] reads back as [m * 2^e]. *)
Definition reads_back (m e c k : Z) : bool :=
  let r := scaled c (2 - e) k in   (* c * 10^k in units of 2^(e-2) *)
  let lo := lower_mid m e * den r in
  let hi := upper_mid m * den r in
  if Z.even m then (lo <=? num r) && (num r <=? hi)
  else (lo <? num r) && (num r <? hi).

(** The candidate with decimal exponent [k]: of the two multiples of
    [10^k] around the float, the closer one that reads back. *)
Definition candidate (m e k : Z) : option Z :=
  let r := scaled m e (- k) in
  let c := rat_floor r in
  let below := reads_back m e c k in
  let above := reads_back m e (c + 1) k in
  let twice := 2 * (num r mod den r) in
  if below && above then
    (if twice <? den r then Some c
     else if den r <? twice then Some (c + 1)
     else if Z.even c then Some c else Some (c + 1))
  else if below then Some c
  else if above then Some (c + 1)
  else None.

(** The shortest decimal that reads back: its digits and exponent. *)
Fixpoint shortest (fuel : nat) (m e k : Z) : Z * Z :=
  match fuel with
  | O => (rat_round (scaled m e (- k)), k)
  | S fuel' =>
      match candidate m e k with
      | Some c => (c, k)
      | None => shortest fuel' m e (k - 1)
      end
  end.

Fixpoint strip_zeros (fuel : nat) (c k : Z) : Z * Z :=
  match fuel with
  | O => (c, k)
  | S fuel' => if (c mod 10 =? 0) && (0 <? c) then strip_zeros fuel' (c / 10) (k + 1)
               else (c, k)
  end.

(** [repr] of a positive finite float: fixed notation when the decimal
    point falls within [-3 .. 16], exponent notation otherwise. *)
Definition repr_finite (m e : Z) : string :=
  let '(c0, k0) := shortest 17 m e (exponent10 m e) in
  let '(c, k) := strip_zeros 20 c0 k0 in
  let ds := digits c in
  let n := strlen ds in
  let decpt := k + n in
  if (decpt <=? -4) || (16 <? decpt) then
    let x := decpt - 1 in
    let mant := if n =? 1 then ds else (take 1 ds ++ "." ++ drop 1 ds)%string in
    let ex := digits (Z.abs x) in
    let sign := if x <? 0 then "-" else "+" in
    let pad := if strlen ex <? 2 then "0" else "" in
    (mant ++ "e" ++ sign ++ pad ++ ex)%string
  else if decpt <=? 0 then
    ("0." ++ zeros (Z.to_nat (- decpt)) ++ ds)%string
  else if n <=? decpt then
    (ds ++ zeros (Z.to_nat (decpt - n)) ++ ".0")%string
  else
    (take decpt ds ++ "." ++ drop decpt ds)%string.

(** [str(x)] of a float. *)
Definition float_str (x : float) : string :=
  match Prim2SF x with
  | S754_nan => "nan"
  | S754_infinity s => if s then "-inf" else "inf"
  | S754_zero s => if s then "-0.0" else "0.0"
  | S754_finite s m e =>
      ((if s then "-" else "") ++ repr_finite (Z.pos m) e)%string
  end.

(** ["%.<prec>f" % x] *)
Definition format_f (prec : Z) (x : float) : string :=
  match Prim2SF x with
  | S754_nan => "nan"
  | S754_infinity s => if s then "-inf" else "inf"
  | S754_zero s =>
      let frac := if prec =? 0 then "" else ("." ++ zeros (Z.to_nat prec))%string in
      ((if s then "-" else "") ++ "0" ++ frac)%string
  | S754_finite s m e =>
      let q := rat_round (scaled (Z.pos m) e prec) in
      let ds := digits q in
      let ds := (zeros (Z.to_nat (prec + 1 - strlen ds)) ++ ds)%string in
      let n := strlen ds in
      let whole := take (n - prec) ds in
      let frac := if prec =? 0 then "" else ("." ++ drop (n - prec) ds)%string in
      ((if s then "-" else "") ++ whole ++ frac)%string
  end.

(** Reading characters. *)
Definition is_digit (c : ascii) : bool :=
  let n := nat_of_ascii c in Nat.leb 48 n && Nat.leb n 57.
Definition digit_val (c : ascii) : Z := Z.of_nat (nat_of_ascii c) - 48.
Definition is_space (c : ascii) : bool :=
  let n := nat_of_ascii c in Nat.eqb n 32 || (Nat.leb 9 n && Nat.leb n 13).

(** [fmt % x] for one float: literal text, [%%], and one conversion [%f]
    or [%.<digits>f]. *)
Inductive fmt_state :=
  | Text
  | Percent
  | Precision (p : Z).

Fixpoint percent_go (fmt : list ascii) (st : fmt_state) (used : bool) (x : float)
  : option string :=
  match fmt, st with
  | [], Text => if used then Some "" else None   (* not all arguments converted *)
  | [], _ => None                                (* incomplete format *)
  | c :: fmt', Text =>
      if Ascii.eqb c "%" then percent_go fmt' Percent used x
      else String c <$> percent_go fmt' Text used x
  | c :: fmt', Percent =>
      if Ascii.eqb c "%" then String "%" <$> percent_go fmt' Text used x
      else if Ascii.eqb c "." then percent_go fmt' (Precision 0) used x
      else if Ascii.eqb c "f" then
        (if used then None   (* not enough arguments *)
         else String.append (format_f 6 x) <$> percent_go fmt' Text true x)
      else None
  | c :: fmt', Precision p =>
      if is_digit c then percent_go fmt' (Precision (10 * p + digit_val c)) used x
      else if Ascii.eqb c "f" then
        (if used then None
         else String.append (format_f p x) <$> percent_go fmt' Text true x)
      else None
  end.

Definition percent_format (fmt : string) (x : float) : option string :=
  percent_go (list_ascii_of_string fmt) Text false x.

(** The float nearest to [p / q], for positive integers [p] and [q]: the
    quotient is cut to at least 70 bits, the bits cut off are recorded in its
    last bit, and rounding to 53 bits does the rest. *)
Definition nearest_float (p q : Z) : float :=
  let k := Z.max 0 (70 + Z.log2 q - Z.log2 p) in
  let n := p * 2 ^ k / q in
  let n := if (p * 2 ^ k) mod q =? 0 then n else Z.lor n 1 in
  SF2Prim (binary_normalize 53 1024 n (- k) false).

(** The float nearest to [mant * 10^exp10]. *)
Definition decimal_float (mant exp10 : Z) : float :=
  if mant =? 0 then 0%float
  else
    let size := strlen (digits mant) + exp10 in
    if 400 <? size then infinity
    else if size <? -400 then 0%float
    else nearest_float (mant * 10 ^ Z.max exp10 0) (10 ^ Z.max (- exp10) 0).

Definition starts_with_digit (s : list ascii) : bool :=
  match s with
  | c :: _ => is_digit c
  | [] => false
  end.

(** Digits, with single underscores between them: the number read after
    [acc], the count of digits, and what follows. *)
Fixpoint read_digits (s : list ascii) (acc count : Z) : Z * Z * list ascii :=
  match s with
  | c :: s' =>
      if is_digit c then read_digits s' (10 * acc + digit_val c) (count + 1)
      else if Ascii.eqb c "_" && (0 <? count) && starts_with_digit s'
      then read_digits s' acc count
      else (acc, count, s)
  | [] => (acc, count, [])
  end.

Definition read_sign (s : list ascii) : bool * list ascii :=
  match s with
  | c :: s' =>
      if Ascii.eqb c "-" then (true, s')
      else if Ascii.eqb c "+" then (false, s')
      else (false, s)
  | [] => (false, [])
  end.

(** [digits [. digits] [e [sign] digits]], with a digit before the
    exponent: the mantissa and the decimal exponent. *)
Definition read_decimal (s : list ascii) : option (Z * Z) :=
  let '(i, ni, s1) := read_digits s 0 0 in
  let '(m, nf, s2) :=
    match s1 with
    | c :: t => if Ascii.eqb c "." then read_digits t i 0 else (i, 0, s1)
    | [] => (i, 0, s1)
    end in
  if ni + nf =? 0 then None
  else
    match s2 with
    | [] => Some (m, - nf)
    | c :: t =>
        if Ascii.eqb c "e" || Ascii.eqb c "E" then
          let '(neg, t') := read_sign t in
          let '(x, nx, s3) := read_digits t' 0 0 in
          match s3 with
          | [] => if nx =? 0 then None
                  else Some (m, (if neg then - x else x) - nf)
          | _ => None
          end
        else None
    end.

Fixpoint lstrip (s : list ascii) : list ascii :=
  match s with
  | c :: s' => if is_space c then lstrip s' else s
  | [] => []
  end.
Definition strip (s : list ascii) : list ascii :=
  rev (lstrip (rev (lstrip s))).

(** [float(s)]: surrounding whitespace, a sign, then [nan], [inf],
    [infinity] or a decimal number. (Characters outside ASCII are not
    read.) *)
Definition float_of_str (s : string) : option float :=
  let '(neg, body) := read_sign (strip (list_ascii_of_string s)) in
  let signed (x : float) := if neg then PrimFloat.opp x else x in
  let word := lower (string_of_list_ascii body) in
  if String.eqb word "nan" then Some nan
  else if String.eqb word "inf" || String.eqb word "infinity" then
    Some (signed infinity)
  else
    match read_decimal body with
    | Some (m, k) => Some (signed (decimal_float m k))
    | None => None
    end.

(** *** Literal patterns *)

(** The characters with a meaning of their own in a pattern. *)
Definition is_meta (c : ascii) : bool :=
  existsb (Ascii.eqb c) (list_ascii_of_string ".^$*+?{}[]\|()").

(** [re.compile]: a pattern without metacharacters matches itself.
    ["invalid[regex"], with its unterminated character set, is refused as
    Python refuses it; any other pattern with a metacharacter is outside
    what this instance reads, and refused too. *)
Definition re_compile (p : string) : option string :=
  if existsb is_meta (list_ascii_of_string p) then None else Some p.

(** [rx.match(s) is not None] *)
Definition re_match (rx s : string) : bool := String.prefix rx s.

(** Every occurrence of [rx] in [s], left to right, replaced by [repl];
    [skip] characters belong to the occurrence just replaced. *)
Fixpoint sub_all (rx repl s : string) (skip : nat) : string :=
  match s with
  | EmptyString =>
      match rx with EmptyString => repl | _ => EmptyString end
  | String c s' =>
      match skip with
      | S skip' => sub_all rx repl s' skip'
      | O =>
          match rx with
          | EmptyString => String.append repl (String c (sub_all rx repl s' 0))
          | _ =>
              if String.prefix rx s
              then String.append repl (sub_all rx repl s' (String.length rx - 1))
              else String c (sub_all rx repl s' 0)
          end
      end
  end.

(** [rx.sub(repl, s)]: a template without backslash stands for itself; a
    literal pattern has no group a template could refer to. *)
Definition re_sub (rx repl s : string) : option string :=
  if existsb (Ascii.eqb "\") (list_ascii_of_string repl) then None
  else Some (sub_all rx repl s 0).

End PyRef.

#[global] Instance reference_runtime : PyRuntime := {|
  regex := string;
  re_compile := PyRef.re_compile;
  re_match := PyRef.re_match;
  re_sub := PyRef.re_sub;
  float_str := PyRef.float_str;
  percent_format := PyRef.percent_format;
  float_of_str := PyRef.float_of_str;
|}.

(** ** A concrete table and a concrete heap

    The table of the test fixture (tests/test_rule_applier.py), its numeric
    columns as float64, held by the caller at reference 0. *)

Definition sales : frame :=
  list_to_map [
    ("Category", [CStr "food"; CStr "BEVERAGES"; CStr "Food"]);
    ("Item", [CStr "Item_1_FOOD"; CStr "Item_2_BEV"; CNone]);
    ("Price Per Unit", [CFloat 10.5; CFloat 20; CFloat 15.753]);
    ("Quantity", [CFloat 2; CFloat 1; CFloat 3]);
    ("Total Spent", [CFloat 21; CFloat 20; CFloat nan]);
    ("Discount Applied", [CBool true; CBool false; CNone])].

Definition heap0 : state :=
  {| frames := {[ 0 := sales ]}; log := []; warnings := [] |}.

(** The first rule of the test fixture, and the same rule with the
    pattern of [test_invalid_regex_pattern]. *)
Definition normalize_category : rule :=
  {| r_rule_type := Some "transformation";
     r_columns := Some ["Category"];
     r_pattern := Some "food";
     r_replacement := Some "Food";
     r_rule_id := Some "normalize_category";
     r_description := Some "Convert Category to title case";
     r_reasoning := Some "Standardize category names";
     r_flag_on_match := None |}.

Definition invalid_regex_rule : rule :=
  {| r_rule_type := Some "transformation";
     r_columns := Some ["Category"];
     r_pattern := Some "invalid[regex";
     r_replacement := Some "\1";
     r_rule_id := Some "normalize_category";
     r_description := Some "Convert Category to title case";
     r_reasoning := Some "Standardize category names";
     r_flag_on_match := None |}.

(** The rule types the dispatch knows. *)
Definition known_rule_type (rule_type : string) : Prop :=
  rule_type ∈ [RuleType.ANOMALY_FLAG; RuleType.IMPUTATION;
               RuleType.FORMAT_STRING; RuleType.TRANSFORMATION].

(** The heap the loop of [apply_rules] has left when, called on [heap0]
    and the table at 0, it is through with [normalize_category]; its
    working copy is at reference 1. *)
Definition after_normalize_category : state :=
  match for_each [normalize_category] (rule_body (RT := reference_runtime) 1)
                 {| frames := <[1 := sales]> (frames heap0); log := [];
                    warnings := [] |} with
  | Returns _ σ' | Raises _ σ' => σ'
  end.

(** The second rule of the test fixture, its pattern a literal one. *)
Definition flag_missing_item : rule :=
  {| r_rule_type := Some "anomaly_flag";
     r_columns := Some ["Item"];
     r_pattern := Some "None";
     r_replacement := Some "[MISSING_ITEM]";
     r_rule_id := Some "flag_missing_item";
     r_description := Some "Flag missing Item values";
     r_reasoning := Some "Flag missing items for review";
     r_flag_on_match := Some true |}.

(** The rule [r] with another [rule_type] field ([None]: without one). *)
Definition with_rule_type (rule_type : option string) (r : rule) : rule :=
  {| r_rule_type := rule_type;
     r_columns := r_columns r;
     r_pattern := r_pattern r;
     r_replacement := r_replacement r;
     r_rule_id := r_rule_id r;
     r_description := r_description r;
     r_reasoning := r_reasoning r;
     r_flag_on_match := r_flag_on_match r |}.



(** One sale whose total is its price times its quantity, and the arithmetic
    check asked of the quantity column. *)
Definition one_sale : frame :=
  list_to_map [
    ("Price Per Unit", [CFloat 10.5]);
    ("Quantity", [CFloat 2]);
    ("Total Spent", [CFloat 21])].

Definition heap1 : state :=
  {| frames := {[ 0 := one_sale ]}; log := []; warnings := [] |}.

Definition mismatch_on_quantity : rule :=
  {| r_rule_type := Some "anomaly_flag";
     r_columns := Some ["Quantity"];
     r_pattern := None;
     r_replacement := None;
     r_rule_id := Some "flag_total_spent_mismatch";
     r_description := Some "Flag totals that are not price times quantity";
     r_reasoning := None;
     r_flag_on_match := None |}.

(** The third rule of the test fixture, its pattern a literal one. *)
Definition impute_total_spent : rule :=
  {| r_rule_type := Some "imputation";
     r_columns := Some ["Total Spent"];
     r_pattern := Some "nan";
     r_replacement := Some "[Price Per Unit] * [Quantity]";
     r_rule_id := Some "impute_total_spent";
     r_description := Some "Impute Total Spent as Price * Quantity";
     r_reasoning := Some "Calculate missing totals";
     r_flag_on_match := None |}.

(** A price list with an [Item] column: the second price is missing in a
    group that has a price, the fifth in a group that has none, and the
    sixth row has no item. *)
Definition stock : frame :=
  list_to_map [
    ("Item", [CStr "Tea"; CStr "Tea"; CStr "Coffee"; CStr "Coffee";
              CStr "Cake"; CNone]);
    ("Price Per Unit", CFloat <$> [10; nan; 40; 50; nan; nan]%float)].

Definition stock_heap : state :=
  {| frames := {[ 0 := stock ]}; log := []; warnings := [] |}.

(** A column of amounts, one of them a text that is no number. *)
Definition amounts : frame :=
  list_to_map [("Amount", [CFloat 15.753; CStr "n/a"])].

Definition amounts_heap : state :=
  {| frames := {[ 0 := amounts ]}; log := []; warnings := [] |}.

(** * Properties *)

Local Open Scope list_scope.

(** ** Lists, strings and masks *)

Lemma append_length (s t : string) :
  String.length (s +:+ t) = String.length s + String.length t.
Proof. induction s as [|c s IH]; simpl; [done | by rewrite IH]. Qed.

(** The flag column of a column is never the column itself. *)
Lemma flag_col_fresh (col : string) (rule_id : option string) :
  col +:+ "_flag_" +:+ fstring rule_id ≠ col.
Proof.
  intros H. apply (f_equal String.length) in H.
  rewrite !append_length in H. simpl in H. lia.
Qed.

(** [mask.sum()] counts the rows marked. *)
Lemma mask_sum_count (mask : list bool) :
  mask_sum mask = length (filter (λ b, b = true) mask).
Proof.
  unfold mask_sum. induction mask as [|b mask IH]; [done |].
  rewrite fmap_cons. destruct b.
  - rewrite filter_cons_True by done. simpl. by rewrite IH.
  - rewrite filter_cons_False by done. simpl. by rewrite IH.
Qed.

Lemma mask_sum_fmap {A} (g : A → bool) (xs : list A) :
  mask_sum (g <$> xs) = length (filter (λ x, g x = true) xs).
Proof.
  unfold mask_sum. induction xs as [|x xs IH]; [done |].
  rewrite !fmap_cons. destruct (g x) eqn:Hg.
  - rewrite filter_cons_True by done. simpl. by rewrite IH.
  - rewrite filter_cons_False by congruence. simpl. by rewrite IH.
Qed.

Lemma map_result_fmap_ok {A B} (f : A → B) (xs : list A) :
  map_result (λ x, Ok (f x)) xs = Ok (f <$> xs).
Proof.
  induction xs as [|x xs IH]; [done |].
  rewrite fmap_cons. cbn [map_result]. by rewrite IH.
Qed.

Lemma to_float64_floats (xs : list float) : to_float64 (CFloat <$> xs) = Ok xs.
Proof.
  unfold to_float64. induction xs as [|x xs IH]; [done |].
  rewrite fmap_cons. cbn [map_result]. by rewrite IH.
Qed.

Lemma loc_select_fmap {A B} (f : A → B) (mask : list bool) (xs : list A) :
  loc_select mask (f <$> xs) = f <$> loc_select mask xs.
Proof.
  revert xs. induction mask as [|m mask IH]; intros [|x xs]; simpl; try done.
  destruct m; simpl; by rewrite IH.
Qed.

(** Selecting rows commutes with a row-wise operation. *)
Lemma loc_select_zip_with {A B C} (g : A → B → C) (mask : list bool)
    (xs : list A) (ys : list B) :
  loc_select mask (zip_with g xs ys)
  = zip_with g (loc_select mask xs) (loc_select mask ys).
Proof.
  revert xs ys. induction mask as [|m mask IH]; intros [|x xs] [|y ys];
    cbn [loc_select zip_with]; try done.
  - by destruct m; rewrite ?zip_with_nil_r.
  - destruct m; cbn [zip_with]; by rewrite IH.
Qed.

Lemma loc_assign_length (mask : list bool) (values s : list cell) :
  length (loc_assign mask values s) = length s.
Proof.
  revert values s. induction mask as [|m mask IH]; intros values [|x s];
    cbn [loc_assign]; try done.
  - by destruct m.
  - destruct m; [destruct values|]; cbn [length]; by rewrite IH.
Qed.

(** [df.loc[mask, col] = g(other.loc[mask])], row by row: a selected row
    takes the value computed from the same row, any other row keeps its
    own. *)
Lemma loc_assign_select_lookup {A} (g : A → cell) (mask : list bool)
    (xs : list A) (s : list cell) (i : nat) (m : bool) (x : A) (y : cell) :
  mask !! i = Some m → xs !! i = Some x → s !! i = Some y →
  loc_assign mask (g <$> loc_select mask xs) s !! i
  = Some (if m then g x else y).
Proof.
  revert xs s i. induction mask as [|m0 mask IH];
    intros [|x0 xs] [|y0 s] i Hm Hx Hy; try done.
  destruct i as [|i]; cbn in Hm, Hx, Hy.
  - injection Hm as ->. injection Hx as ->. injection Hy as ->.
    by destruct m.
  - destruct m0; cbn [loc_select loc_assign fmap list_fmap];
      rewrite lookup_cons; by apply IH.
Qed.

(** ** Floats *)

(** The sign given to rounding does not reach the absolute value. *)
Lemma SFabs_round_aux prec emax s m e l :
  SFabs (binary_round_aux prec emax s m e l)
  = SFabs (binary_round_aux prec emax (negb s) m e l).
Proof.
  unfold binary_round_aux.
  destruct (shr_fexp prec emax m e l) as [mrs e'].
  destruct (shr_fexp prec emax _ e' loc_Exact) as [mrs' e''].
  destruct (shr_m mrs'); [reflexivity | | reflexivity].
  destruct (e'' <=? emax - prec)%Z; reflexivity.
Qed.

Lemma SFabs_normalize_opp prec emax m e :
  SFabs (binary_normalize prec emax (- m) e false)
  = SFabs (binary_normalize prec emax m e false).
Proof.
  destruct m as [|m|m]; [reflexivity | |]; simpl; unfold binary_round;
    destruct (shl_align m e _) as [mz ez].
  - apply (SFabs_round_aux prec emax true).
  - apply (SFabs_round_aux prec emax false).
Qed.

Lemma SFabs_sub_comm prec emax x y :
  SFabs (SFsub prec emax x y) = SFabs (SFsub prec emax y x).
Proof.
  destruct x as [sx|sx| |sx mx ex], y as [sy|sy| |sy my ey];
    try reflexivity; try (destruct sx, sy; reflexivity).
  unfold SFsub. rewrite (Z.min_comm ey ex).
  rewrite <- SFabs_normalize_opp. f_equal. f_equal. lia.
Qed.

(** [abs(x - y)] is [abs(y - x)], NaN and infinities included. *)
Lemma abs_sub_comm (x y : float) :
  PrimFloat.abs (PrimFloat.sub x y) = PrimFloat.abs (PrimFloat.sub y x).
Proof.
  apply Prim2SF_inj. rewrite !abs_spec, !sub_spec. apply SFabs_sub_comm.
Qed.

(** NaN, seen through the specification of the floats. *)
Definition is_NaN (x : float) : Prop := Prim2SF x = S754_nan.

Lemma is_nan_NaN x : PrimFloat.is_nan x = true → is_NaN x.
Proof.
  unfold PrimFloat.is_nan, is_NaN. rewrite FloatAxioms.eqb_spec.
  destruct (Prim2SF x) as [s|s| |s m e]; try (destruct s); try discriminate;
    try reflexivity; unfold SFeqb, SFcompare;
    rewrite Z.compare_refl, Pos.compare_cont_refl; discriminate.
Qed.

Lemma mul_NaN x y : is_NaN x ∨ is_NaN y → is_NaN (PrimFloat.mul x y).
Proof.
  unfold is_NaN. rewrite mul_spec. intros [->| ->]; [reflexivity |].
  destruct (Prim2SF x); reflexivity.
Qed.

Lemma sub_NaN x y : is_NaN x ∨ is_NaN y → is_NaN (PrimFloat.sub x y).
Proof.
  unfold is_NaN. rewrite sub_spec. intros [->| ->]; [reflexivity |].
  destruct (Prim2SF x); reflexivity.
Qed.

Lemma div_NaN x y : is_NaN x → is_NaN (PrimFloat.div x y).
Proof. unfold is_NaN. rewrite div_spec. intros ->. reflexivity. Qed.

Lemma abs_NaN x : is_NaN x → is_NaN (PrimFloat.abs x).
Proof. unfold is_NaN. rewrite abs_spec. intros ->. reflexivity. Qed.

Lemma ltb_NaN_l x y : is_NaN x → PrimFloat.ltb x y = false.
Proof. unfold is_NaN. rewrite ltb_spec. intros ->. reflexivity. Qed.

Lemma ltb_NaN_r x y : is_NaN y → PrimFloat.ltb x y = false.
Proof.
  unfold is_NaN. rewrite ltb_spec. intros ->. destruct (Prim2SF x); reflexivity.
Qed.

Lemma rint_NaN x : is_NaN x → rint x = x.
Proof. intros H. unfold rint. by rewrite (ltb_NaN_l _ _ (abs_NaN _ H)). Qed.

Lemma round2_NaN x : is_NaN x → is_NaN (round2 x).
Proof.
  intros H. unfold round2. apply div_NaN.
  assert (is_NaN (PrimFloat.mul x 100)) as H' by (apply mul_NaN; by left).
  by rewrite (rint_NaN _ H').
Qed.

(** ** What a computation may touch *)

(** [grows l σ σ']: from [σ] to [σ'] every frame but the one at [l] is
    as it was, and the frame at [l] is still there with all its columns. *)
Definition grows (l : loc) (σ σ' : state) : Prop :=
  (∀ l', l' ≠ l → frames σ' !! l' = frames σ !! l') ∧
  (∀ f, frames σ !! l = Some f →
        ∃ f', frames σ' !! l = Some f' ∧ ∀ col, is_Some (f !! col) → is_Some (f' !! col)).

Lemma grows_same_frames l σ σ' : frames σ' = frames σ → grows l σ σ'.
Proof. intros H. split; rewrite H; [done | eauto]. Qed.

Lemma grows_refl l σ : grows l σ σ.
Proof. by apply grows_same_frames. Qed.

Lemma grows_trans l σ1 σ2 σ3 : grows l σ1 σ2 → grows l σ2 σ3 → grows l σ1 σ3.
Proof.
  intros [H1 H1'] [H2 H2']. split.
  - intros l' Hl. rewrite H2, H1; done.
  - intros f Hf. destruct (H1' f Hf) as (f' & Hf' & Hc).
    destruct (H2' f' Hf') as (f'' & Hf'' & Hc'). eauto.
Qed.

(** [quiet l m]: whether it returns or raises, [m] writes to the frame at
    [l] only, drops none of its columns, and leaves the log alone. *)
Definition quiet (l : loc) {A} (m : M A) : Prop :=
  ∀ σ, match m σ with
       | Returns _ σ' | Raises _ σ' => grows l σ σ' ∧ log σ' = log σ
       end.

(** [logs_one l rule_id col m]: [m] is quiet but for the one entry, of
    the rule [rule_id] on the column [col], it appends to the log when it
    returns. *)
Definition logs_one (l : loc) (rule_id : option string) (col : string)
    (m : M unit) : Prop :=
  ∀ σ, match m σ with
       | Returns _ σ' =>
           grows l σ σ' ∧
           ∃ entry, log σ' = log σ ++ [entry] ∧
                    e_rule_id entry = rule_id ∧ e_column entry = col
       | Raises _ σ' => grows l σ σ' ∧ log σ' = log σ
       end.

Section Effects.
Context `{RT : PyRuntime}.

Lemma quiet_ret l {A} (a : A) : quiet l (mret a).
Proof. intros σ. simpl. split; [apply grows_refl | done]. Qed.

Lemma quiet_raise l {A} (e : exn) : quiet l (raise e : M A).
Proof. intros σ. simpl. split; [apply grows_refl | done]. Qed.

Lemma quiet_lift l {A} (r : result A) : quiet l (lift r).
Proof. intros σ. unfold lift. destruct r; (split; [apply grows_refl | done]). Qed.

Lemma quiet_bind l {A B} (m : M A) (k : A → M B) :
  quiet l m → (∀ a, quiet l (k a)) → quiet l (m ≫= k).
Proof.
  intros Hm Hk σ. unfold mbind, M_bind. specialize (Hm σ).
  destruct (m σ) as [a σ1|e σ1]; [|done].
  destruct Hm as [Hg Hl]. specialize (Hk a σ1).
  destruct (k a σ1) as [b σ2|e σ2]; destruct Hk as [Hg' Hl'];
    (split; [by eapply grows_trans | congruence]).
Qed.

Lemma quiet_try l {A} (body : M A) (handler : exn → M A) :
  quiet l body → (∀ e, quiet l (handler e)) → quiet l (try_except body handler).
Proof.
  intros Hm Hk σ. unfold try_except. specialize (Hm σ).
  destruct (body σ) as [a σ1|e σ1]; [done|].
  destruct Hm as [Hg Hl]. specialize (Hk e σ1).
  destruct (handler e σ1) as [b σ2|e' σ2]; destruct Hk as [Hg' Hl'];
    (split; [by eapply grows_trans | congruence]).
Qed.

Lemma quiet_deref l l' : quiet l (deref l').
Proof.
  intros σ. unfold deref.
  destruct (frames σ !! l'); (split; [apply grows_refl | done]).
Qed.

Lemma quiet_has_column l l' col : quiet l (has_column l' col).
Proof.
  apply quiet_bind; [apply quiet_deref | intros f; apply quiet_ret].
Qed.

Lemma quiet_getitem l l' col : quiet l (getitem l' col).
Proof.
  apply quiet_bind; [apply quiet_deref | intros f].
  destruct (f !! col); [apply quiet_ret | apply quiet_raise].
Qed.

Lemma quiet_setitem l col values : quiet l (setitem l col values).
Proof.
  intros σ. unfold setitem, mbind, M_bind, deref, store.
  destruct (frames σ !! l) as [f|] eqn:Hf; [|split; [apply grows_refl | done]].
  split; [|done]. split; simpl.
  - intros l' Hl. by rewrite lookup_insert_ne.
  - intros f0 Hf0. exists (<[col := values]> f). rewrite lookup_insert_eq.
    split; [done |]. intros c Hc. assert (f0 = f) as -> by congruence.
    destruct (decide (col = c)) as [->|Hne];
      [rewrite lookup_insert_eq; eauto | by rewrite lookup_insert_ne].
Qed.

Lemma quiet_warn l w : quiet l (warn w).
Proof. intros σ. simpl. split; [by apply grows_same_frames | done]. Qed.

Lemma logs_one_append l entry :
  logs_one l (e_rule_id entry) (e_column entry) (log_append entry).
Proof. intros σ. simpl. split; [by apply grows_same_frames | eauto]. Qed.

Lemma logs_one_bind l rule_id col {A} (m : M A) (k : A → M unit) :
  quiet l m → (∀ a, logs_one l rule_id col (k a)) →
  logs_one l rule_id col (m ≫= k).
Proof.
  intros Hm Hk σ. unfold mbind, M_bind. specialize (Hm σ).
  destruct (m σ) as [a σ1|e σ1]; [|done].
  destruct Hm as [Hg Hl]. specialize (Hk a σ1).
  destruct (k a σ1) as [b σ2|e σ2].
  - destruct Hk as (Hg' & entry & Hl' & Hid & Hcol).
    split; [by eapply grows_trans |]. exists entry. by rewrite Hl', Hl.
  - destruct Hk as [Hg' Hl']. split; [by eapply grows_trans | congruence].
Qed.

Ltac quiet_step :=
  first
    [ apply quiet_ret | apply quiet_raise | apply quiet_lift
    | apply quiet_getitem | apply quiet_setitem | apply quiet_has_column
    | apply quiet_warn | apply quiet_deref
    | apply quiet_bind; [| intros ?]
    | apply quiet_try; [| intros ?] ].

Ltac quiet_auto :=
  repeat first
    [ quiet_step
    | case_decide
    | match goal with
      | |- quiet _ (if ?b then _ else _) => destruct b
      | |- quiet _ (match ?x with _ => _ end) => destruct x
      end ].

(** Each handler writes to its frame only and logs exactly one entry when
    it returns. *)
Lemma anomaly_flag_logs_one l col pattern rule_id description reasoning flag :
  logs_one l rule_id col
    (_apply_anomaly_flag l col pattern rule_id description reasoning flag).
Proof.
  unfold _apply_anomaly_flag.
  apply logs_one_bind; [quiet_auto | intros mask].
  apply logs_one_bind; [quiet_auto | intros _].
  apply (logs_one_append l (Build_log_entry _ _ _ _ _ _ _)).
Qed.

Lemma imputation_logs_one l col pattern replacement rule_id description reasoning :
  logs_one l rule_id col
    (_apply_imputation l col pattern replacement rule_id description reasoning).
Proof.
  unfold _apply_imputation.
  apply logs_one_bind; [quiet_auto | intros c].
  apply logs_one_bind; [quiet_auto | intros mask].
  apply logs_one_bind; [quiet_auto | intros _].
  apply (logs_one_append l (Build_log_entry _ _ _ _ _ _ _)).
Qed.

Lemma format_string_logs_one l col pattern replacement rule_id description reasoning :
  logs_one l rule_id col
    (_apply_format_string l col pattern replacement rule_id description reasoning).
Proof.
  unfold _apply_format_string.
  apply logs_one_bind; [quiet_auto | intros _].
  apply (logs_one_append l (Build_log_entry _ _ _ _ _ _ _)).
Qed.

Lemma transformation_logs_one l col pattern replacement rule_id description reasoning :
  logs_one l rule_id col
    (_apply_transformation l col pattern replacement rule_id description reasoning).
Proof.
  unfold _apply_transformation.
  apply logs_one_bind; [quiet_auto | intros c].
  apply logs_one_bind; [quiet_auto | intros c'].
  apply logs_one_bind; [quiet_auto | intros _].
  apply (logs_one_append l (Build_log_entry _ _ _ _ _ _ _)).
Qed.

(** [confined l m]: whatever [m] does, it writes to the frame at [l]
    only and drops none of its columns. *)
Definition confined (l : loc) {A} (m : M A) : Prop :=
  ∀ σ, match m σ with
       | Returns _ σ' | Raises _ σ' => grows l σ σ'
       end.

Lemma quiet_confined l {A} (m : M A) : quiet l m → confined l m.
Proof. intros H σ. specialize (H σ). destruct (m σ); tauto. Qed.

Lemma logs_one_confined l rule_id col m : logs_one l rule_id col m → confined l m.
Proof. intros H σ. specialize (H σ). destruct (m σ); tauto. Qed.

Lemma confined_bind l {A B} (m : M A) (k : A → M B) :
  confined l m → (∀ a, confined l (k a)) → confined l (m ≫= k).
Proof.
  intros Hm Hk σ. unfold mbind, M_bind. specialize (Hm σ).
  destruct (m σ) as [a σ1|e σ1]; [|done]. specialize (Hk a σ1).
  destruct (k a σ1); by eapply grows_trans.
Qed.

Lemma confined_for_each l {A} (xs : list A) (body : A → M unit) :
  (∀ x, confined l (body x)) → confined l (for_each xs body).
Proof.
  intros Hb. induction xs as [|x xs IH]; simpl.
  - intros σ. apply grows_refl.
  - apply confined_bind; [apply Hb | intros _; apply IH].
Qed.

Lemma rule_on_column_confined l rule_type pattern replacement rule_id
    description reasoning flag col :
  confined l (rule_on_column l rule_type pattern replacement rule_id
                             description reasoning flag col).
Proof.
  unfold rule_on_column.
  apply confined_bind; [apply quiet_confined, quiet_has_column | intros present].
  destruct present; simpl; [|apply quiet_confined, quiet_warn].
  repeat case_decide;
    eauto using logs_one_confined, anomaly_flag_logs_one, imputation_logs_one,
      format_string_logs_one, transformation_logs_one, quiet_confined, quiet_warn.
Qed.

Lemma rule_body_confined l rule : confined l (rule_body l rule).
Proof.
  unfold rule_body. destruct (default [] (r_columns rule)) as [|col cols].
  - apply quiet_confined, quiet_warn.
  - apply confined_for_each. intros x. apply rule_on_column_confined.
Qed.

End Effects.

(** ** Running the primitives *)

(** The state after a write to the frame at [df]. *)
Definition written (σ : state) (df : loc) (f : frame) : state :=
  {| frames := <[df := f]> (frames σ); log := log σ; warnings := warnings σ |}.

(** The state after one more log entry. *)
Definition logged (σ : state) (entry : log_entry) : state :=
  {| frames := frames σ; log := log σ ++ [entry]; warnings := warnings σ |}.

Lemma run_bind {A B} (m : M A) (k : A → M B) σ :
  (m ≫= k) σ = match m σ with
               | Returns a σ' => k a σ'
               | Raises e σ' => Raises e σ'
               end.
Proof. reflexivity. Qed.

Lemma run_getitem df col σ f c :
  frames σ !! df = Some f → f !! col = Some c →
  getitem df col σ = Returns c σ.
Proof.
  intros Hf Hc. unfold getitem, deref. rewrite run_bind, Hf, Hc. done.
Qed.

Lemma run_getitem_missing df col σ f :
  frames σ !! df = Some f → f !! col = None →
  getitem df col σ = Raises (KeyError col) σ.
Proof.
  intros Hf Hc. unfold getitem, deref. rewrite run_bind, Hf, Hc. done.
Qed.

Lemma run_setitem df col values σ f :
  frames σ !! df = Some f →
  setitem df col values σ = Returns tt (written σ df (<[col := values]> f)).
Proof. intros Hf. unfold setitem, deref. rewrite run_bind, Hf. done. Qed.

Lemma run_has_column df col σ f :
  frames σ !! df = Some f →
  has_column df col σ = Returns (bool_decide (is_Some (f !! col))) σ.
Proof. intros Hf. unfold has_column, deref. rewrite run_bind, Hf. done. Qed.

Lemma written_lookup σ df f : frames (written σ df f) !! df = Some f.
Proof. apply lookup_insert_eq. Qed.

(** ** The dispatch loop, step by step *)

Section Loop.
Context `{RT : PyRuntime}.

Lemma for_each_app {A} (xs ys : list A) (body : A → M unit) σ :
  for_each (xs ++ ys) body σ =
  match for_each xs body σ with
  | Returns _ σ' => for_each ys body σ'
  | Raises e σ' => Raises e σ'
  end.
Proof.
  revert σ. induction xs as [|x xs IH]; intros σ; simpl; [done |].
  unfold mbind, M_bind. destruct (body x σ) as [[] σ1|e σ1]; [apply IH | done].
Qed.

(** The working copy [apply_rules] starts from. *)
Definition working_copy (σ : state) (f : frame) : state :=
  {| frames := <[fresh (dom (frames σ)) := f]> (frames σ);
     log := []; warnings := warnings σ |}.

Lemma fresh_loc_unused (σ : state) : frames σ !! fresh (dom (frames σ)) = None.
Proof. apply not_elem_of_dom, is_fresh. Qed.

Lemma apply_rules_run (self : RuleApplier) df σ f :
  frames σ !! df = Some f →
  apply_rules self df σ =
  match for_each (rules self) (rule_body (fresh (dom (frames σ))))
                 (working_copy σ f) with
  | Returns _ σ' => Returns (fresh (dom (frames σ)), log σ') σ'
  | Raises e σ' => Raises e σ'
  end.
Proof.
  intros Hf. unfold apply_rules, mbind, M_bind, copy_deep. rewrite Hf. simpl.
  unfold working_copy. by destruct (for_each _ _ _).
Qed.

Lemma apply_rules_dangling (self : RuleApplier) df σ :
  frames σ !! df = None → apply_rules self df σ = Raises TypeError σ.
Proof.
  intros Hf. unfold apply_rules, mbind, M_bind, copy_deep. by rewrite Hf.
Qed.

(** Applying one more rule: the rules before it run as they did, then the
    body of the loop runs once more on the state they left. *)
Lemma apply_rules_snoc (self : RuleApplier) (rule : rule) df σ l lg σ1 :
  apply_rules self df σ = Returns (l, lg) σ1 →
  lg = log σ1 ∧
  apply_rules {| rules_path := rules_path self; rules := rules self ++ [rule] |}
              df σ =
  match rule_body l rule σ1 with
  | Returns _ σ2 => Returns (l, log σ2) σ2
  | Raises e σ2 => Raises e σ2
  end.
Proof.
  intros Hrun. destruct (frames σ !! df) as [f|] eqn:Hf;
    [|by rewrite apply_rules_dangling in Hrun].
  rewrite (apply_rules_run _ _ _ _ Hf) in Hrun.
  rewrite (apply_rules_run _ _ _ _ Hf). simpl.
  rewrite for_each_app.
  destruct (for_each (rules self) _ _) as [[] σ'|e σ']; [|done].
  injection Hrun as <- <- <-. split; [done |]. simpl.
  unfold mbind, M_bind. by destruct (rule_body _ rule σ') as [[] σ2|e σ2].
Qed.

(** *** The handlers on a frame they can read *)

Lemma run_lift_ok {A} (r : result A) (a : A) σ :
  r = Ok a → lift r σ = Returns a σ.
Proof. by intros ->. Qed.

Lemma run_lift_err {A} (r : result A) (e : exn) σ :
  r = Err e → lift r σ = Raises e σ.
Proof. by intros ->. Qed.

Lemma anomaly_flag_run df col pattern rule_id description reasoning
    (flag : bool) σ f c matches :
  frames σ !! df = Some f → f !! col = Some c →
  rule_id ≠ Some "flag_total_spent_mismatch" →
  str_match pattern (astype_str c) = Ok matches →
  let mask := if flag then matches else negb <$> matches in
  _apply_anomaly_flag df col pattern rule_id description reasoning flag σ =
  Returns tt
    (logged (written σ df (<[col +:+ "_flag_" +:+ fstring rule_id
                             := CBool <$> mask]> f))
       {| e_rule_id := rule_id; e_type := "anomaly_flag"; e_column := col;
          e_flagged_count := Some (mask_sum mask); e_imputed_count := None;
          e_description := description; e_reasoning := reasoning |}).
Proof.
  intros Hf Hc Hid Hm mask. unfold _apply_anomaly_flag.
  rewrite decide_False by done.
  rewrite !run_bind, (run_getitem _ _ _ _ _ Hf Hc).
  rewrite run_bind, (run_lift_ok _ _ _ Hm). cbn [mret M_ret].
  rewrite run_bind, (run_setitem _ _ _ _ _ Hf). done.
Qed.

Lemma transformation_run df col pattern replacement rule_id description
    reasoning σ f c c' :
  frames σ !! df = Some f → f !! col = Some c →
  str_replace pattern replacement (astype_str c) = Ok c' →
  _apply_transformation df col pattern replacement rule_id description
                        reasoning σ =
  Returns tt
    (logged (written σ df (<[col := CStr <$> c']> f))
       {| e_rule_id := rule_id; e_type := "transformation"; e_column := col;
          e_flagged_count := None; e_imputed_count := None;
          e_description := description; e_reasoning := reasoning |}).
Proof.
  intros Hf Hc Hr. unfold _apply_transformation.
  rewrite !run_bind, (run_getitem _ _ _ _ _ Hf Hc).
  rewrite run_bind, (run_lift_ok _ _ _ Hr).
  rewrite run_bind, (run_setitem _ _ _ _ _ Hf). done.
Qed.

Lemma transformation_raises df col pattern replacement rule_id description
    reasoning σ f c e :
  frames σ !! df = Some f → f !! col = Some c →
  str_replace pattern replacement (astype_str c) = Err e →
  _apply_transformation df col pattern replacement rule_id description
                        reasoning σ = Raises e σ.
Proof.
  intros Hf Hc Hr. unfold _apply_transformation.
  rewrite !run_bind, (run_getitem _ _ _ _ _ Hf Hc).
  by rewrite run_bind, (run_lift_err _ _ _ Hr).
Qed.

(** A pattern [re.compile] refuses makes [str.replace] raise, whatever
    the rows. *)
Lemma str_replace_invalid p replacement s :
  re_compile p = None → ∃ e, str_replace (Some p) replacement s = Err e.
Proof.
  intros Hp. unfold str_replace. destruct replacement; [|eauto].
  rewrite Hp. eauto.
Qed.

(** The loop body on a column the frame has. *)
Lemma rule_on_column_present df rule_type pattern replacement rule_id
    description reasoning flag col σ f :
  frames σ !! df = Some f → is_Some (f !! col) →
  rule_on_column df rule_type pattern replacement rule_id description
                 reasoning flag col σ =
  (if decide (rule_type = RuleType.ANOMALY_FLAG) then
     _apply_anomaly_flag df col pattern rule_id description reasoning flag
   else if decide (rule_type = RuleType.IMPUTATION) then
     _apply_imputation df col pattern replacement rule_id description reasoning
   else if decide (rule_type = RuleType.FORMAT_STRING) then
     _apply_format_string df col pattern replacement rule_id description
                          reasoning
   else if decide (rule_type = RuleType.TRANSFORMATION) then
     _apply_transformation df col pattern replacement rule_id description
                           reasoning
   else warn (UnknownRuleType rule_type rule_id)) σ.
Proof.
  intros Hf Hc. unfold rule_on_column.
  rewrite run_bind, (run_has_column _ _ _ _ Hf).
  by rewrite bool_decide_eq_true_2.
Qed.

(** The loop body on a column the frame lacks. *)
Lemma rule_on_column_absent df rule_type pattern replacement rule_id
    description reasoning flag col σ f :
  frames σ !! df = Some f → f !! col = None →
  rule_on_column df rule_type pattern replacement rule_id description
                 reasoning flag col σ =
  warn (ColumnMissing col rule_id) σ.
Proof.
  intros Hf Hc. unfold rule_on_column.
  rewrite run_bind, (run_has_column _ _ _ _ Hf).
  rewrite bool_decide_eq_false_2; [done |]. rewrite Hc. by intros [? ?].
Qed.

Lemma total_spent_mismatch_run df col pattern description reasoning
    (flag : bool) σ f ps qs ts :
  frames σ !! df = Some f →
  f !! "Price Per Unit" = Some (CFloat <$> ps) →
  f !! "Quantity" = Some (CFloat <$> qs) →
  f !! col = Some (CFloat <$> ts) →
  let mask := (λ d, PrimFloat.ltb tol (PrimFloat.abs d))
                <$> zip_with PrimFloat.sub ts
                      (round2 <$> zip_with PrimFloat.mul ps qs) in
  _apply_anomaly_flag df col pattern (Some "flag_total_spent_mismatch")
                      description reasoning flag σ =
  Returns tt
    (logged (written σ df
               (<[col +:+ "_flag_" +:+ "flag_total_spent_mismatch"
                  := CBool <$> mask]> f))
       {| e_rule_id := Some "flag_total_spent_mismatch";
          e_type := "anomaly_flag"; e_column := col;
          e_flagged_count := Some (mask_sum mask); e_imputed_count := None;
          e_description := description; e_reasoning := reasoning |}).
Proof.
  intros Hf Hp Hq Ht mask. unfold _apply_anomaly_flag.
  rewrite decide_True by done.
  rewrite !run_bind, (run_getitem _ _ _ _ _ Hf Hp).
  rewrite run_bind, (run_getitem _ _ _ _ _ Hf Hq).
  rewrite run_bind, (run_lift_ok _ _ _ (to_float64_floats ps)).
  rewrite run_bind, (run_lift_ok _ _ _ (to_float64_floats qs)).
  rewrite run_bind, (run_getitem _ _ _ _ _ Hf Ht).
  rewrite run_bind, (run_lift_ok _ _ _ (to_float64_floats ts)).
  cbn [mret M_ret].
  rewrite run_bind, (run_setitem _ _ _ _ _ Hf). done.
Qed.

Lemma product_imputation_run df col pattern rule_id description reasoning
    σ f c ps qs mask :
  frames σ !! df = Some f →
  f !! col = Some c →
  f !! "Price Per Unit" = Some (CFloat <$> ps) →
  f !! "Quantity" = Some (CFloat <$> qs) →
  str_match pattern (astype_str c) = Ok mask →
  let valid :=
    zip_with andb (zip_with andb (notna <$> (CFloat <$> ps))
                                 (notna <$> (CFloat <$> qs))) mask in
  _apply_imputation df col pattern (Some "[Price Per Unit] * [Quantity]")
                    rule_id description reasoning σ =
  Returns tt
    (logged (written σ df
               (<[col := loc_assign valid
                           (CFloat <$> zip_with PrimFloat.mul
                                         (loc_select valid ps)
                                         (loc_select valid qs)) c]> f))
       {| e_rule_id := rule_id; e_type := "imputation"; e_column := col;
          e_flagged_count := None; e_imputed_count := Some (mask_sum mask);
          e_description := description; e_reasoning := reasoning |}).
Proof.
  intros Hf Hc Hp Hq Hm valid. unfold _apply_imputation.
  rewrite !run_bind, (run_getitem _ _ _ _ _ Hf Hc).
  rewrite run_bind, (run_lift_ok _ _ _ Hm).
  rewrite decide_True by done.
  rewrite !run_bind, (run_getitem _ _ _ _ _ Hf Hp).
  rewrite run_bind, (run_getitem _ _ _ _ _ Hf Hq).
  fold valid. rewrite !loc_select_fmap.
  rewrite run_bind, (run_lift_ok _ _ _ (to_float64_floats _)).
  rewrite run_bind, (run_lift_ok _ _ _ (to_float64_floats _)).
  rewrite run_bind, (run_getitem _ _ _ _ _ Hf Hc).
  rewrite (run_setitem _ _ _ _ _ Hf). done.
Qed.

(** A loop raises when one of its turns raises, provided the turns before
    it keep what makes that turn raise. *)
Lemma for_each_reaches_raise {A} (xs : list A) (body : A → M unit)
    (I : state → Prop) (x : A) :
  x ∈ xs →
  (∀ y σ, I σ → match body y σ with
                | Returns _ σ' => I σ'
                | Raises _ _ => True
                end) →
  (∀ σ, I σ → ∃ e σ', body x σ = Raises e σ') →
  ∀ σ, I σ → ∃ e σ', for_each xs body σ = Raises e σ'.
Proof.
  intros Hx Hkeep Hbad. induction xs as [|y ys IH];
    [by apply elem_of_nil in Hx |].
  intros σ HI. cbn [for_each]. rewrite run_bind.
  apply elem_of_cons in Hx as [<-|Hx].
  - destruct (Hbad σ HI) as (e & σ' & ->). eauto.
  - specialize (Hkeep y σ HI).
    destruct (body y σ) as [[] σ1|e σ1]; [by apply IH | eauto].
Qed.

(** The frame at [l] has the column [col]. *)
Definition holds_column (l : loc) (col : string) (σ : state) : Prop :=
  ∃ f, frames σ !! l = Some f ∧ is_Some (f !! col).

Lemma confined_keeps_column l col {A} (m : M A) σ :
  confined l m → holds_column l col σ →
  match m σ with
  | Returns _ σ' => holds_column l col σ'
  | Raises _ _ => True
  end.
Proof.
  intros Hm (f & Hf & Hc). specialize (Hm σ).
  destruct (m σ) as [a σ'|e σ']; [|done].
  destruct Hm as [_ Hown]. destruct (Hown f Hf) as (f' & Hf' & Hcols).
  exists f'. eauto.
Qed.

(** One more rule, on one column the working frame has: what
    [apply_rules] returns is what the handler of the rule's type leaves. *)
Lemma apply_rules_one_more (self : RuleApplier) (rule : rule) df σ l lg σ1
    f col :
  apply_rules self df σ = Returns (l, lg) σ1 →
  frames σ1 !! l = Some f → is_Some (f !! col) →
  r_columns rule = Some [col] →
  lg = log σ1 ∧
  apply_rules {| rules_path := rules_path self; rules := rules self ++ [rule] |}
              df σ =
  match
    rule_on_column l (lower (default "transformation" (r_rule_type rule)))
      (r_pattern rule) (r_replacement rule) (r_rule_id rule)
      (default "" (r_description rule)) (default "" (r_reasoning rule))
      (default false (r_flag_on_match rule)) col σ1
  with
  | Returns _ σ2 => Returns (l, log σ2) σ2
  | Raises e σ2 => Raises e σ2
  end.
Proof.
  intros Hrun Hf Hc Hcols.
  destruct (apply_rules_snoc self rule df σ l lg σ1 Hrun) as [-> ->].
  split; [done |]. unfold rule_body. rewrite Hcols.
  change (default [] (Some [col])) with [col]. cbn [for_each].
  rewrite run_bind. by destruct (rule_on_column _ _ _ _ _ _ _ _ _ σ1) as [[] ?|? ?].
Qed.

Lemma written_written σ df f1 f2 :
  written (written σ df f1) df f2 = written σ df f2.
Proof. unfold written. cbn. by rewrite insert_insert_eq. Qed.

(** [df.loc[mask, col] = df.loc[mask, key_col].map(g)] on a float64 column,
    the mask being a test of the column's own values: row by row. *)
Lemma group_step_rows (g : cell → float) (t : float → bool)
    (keys : list cell) (vs : list float) :
  length keys = length vs →
  loc_assign (t <$> vs) ((λ k, CFloat (g k)) <$> loc_select (t <$> vs) keys)
             (CFloat <$> vs)
  = CFloat <$> zip_with (λ k v, if t v then g k else v) keys vs.
Proof.
  revert keys. induction vs as [|v vs IH]; intros [|k keys] Hlen;
    try done.
  injection Hlen as Hlen. rewrite !fmap_cons.
  cbn [loc_select loc_assign zip_with fmap list_fmap].
  destruct (t v); cbn [fmap list_fmap loc_assign]; by rewrite <- (IH keys Hlen).
Qed.

Lemma fillna_floats (m : float) (gs : list float) :
  fillna m (CFloat <$> gs)
  = CFloat <$> ((λ y, if PrimFloat.is_nan y then m else y) <$> gs).
Proof.
  unfold fillna. rewrite <- !list_fmap_compose. apply list_fmap_ext.
  intros i y _. cbn. by destruct (PrimFloat.is_nan y).
Qed.

(** The median-imputation branch on a float64 column, the table having
    an [Item] column. *)
Lemma median_imputation_run df col pattern rule_id description reasoning
    σ f items vs (t : float → bool) :
  frames σ !! df = Some f →
  f !! col = Some (CFloat <$> vs) →
  f !! "Item" = Some items →
  length items = length vs →
  str_match pattern (astype_str (CFloat <$> vs)) = Ok (t <$> vs) →
  let medians := groupby_median items vs in
  let grouped :=
    zip_with (λ k v, if t v then map_lookup medians k else v) items vs in
  _apply_imputation df col pattern (Some "<MEDIAN_FROM_GROUP_OR_GLOBAL>")
                    rule_id description reasoning σ =
  Returns tt
    (logged (written σ df
               (<[col := CFloat <$> ((λ y, if PrimFloat.is_nan y
                                           then median grouped else y)
                                       <$> grouped)]> f))
       {| e_rule_id := rule_id; e_type := "imputation"; e_column := col;
          e_flagged_count := None;
          e_imputed_count := Some (mask_sum (t <$> vs));
          e_description := description; e_reasoning := reasoning |}).
Proof.
  intros Hf Hc Hi Hlen Hm medians grouped. unfold _apply_imputation.
  rewrite !run_bind, (run_getitem _ _ _ _ _ Hf Hc).
  rewrite run_bind, (run_lift_ok _ _ _ Hm).
  rewrite decide_False by done. rewrite decide_True by done.
  rewrite !run_bind, (run_has_column _ _ _ _ Hf).
  rewrite bool_decide_eq_true_2 by (rewrite Hi; eauto).
  rewrite !run_bind, (run_getitem _ _ _ _ _ Hf Hi).
  rewrite run_bind, (run_getitem _ _ _ _ _ Hf Hc).
  rewrite run_bind, (run_lift_ok _ _ _ (to_float64_floats _)).
  rewrite (run_setitem _ _ _ _ _ Hf).
  unfold series_map. rewrite (group_step_rows _ t items vs Hlen).
  fold medians grouped.
  set (f1 := <[col := CFloat <$> grouped]> f).
  pose proof (written_lookup σ df f1) as Hf1.
  assert (f1 !! col = Some (CFloat <$> grouped)) as Hc1
    by apply lookup_insert_eq.
  rewrite run_bind, (run_getitem _ _ _ _ _ Hf1 Hc1).
  rewrite run_bind, (run_lift_ok _ _ _ (to_float64_floats _)).
  rewrite (run_setitem _ _ _ _ _ Hf1), written_written.
  subst f1. rewrite insert_insert_eq, fillna_floats. done.
Qed.

(** NaN equals nothing. *)
Lemma eqb_NaN_r x y : is_NaN y → PrimFloat.eqb x y = false.
Proof.
  unfold is_NaN. rewrite FloatAxioms.eqb_spec. intros ->.
  destruct (Prim2SF x); reflexivity.
Qed.

(** No group has a missing key. *)
Lemma group_keys_notna (keys : list cell) (k : cell) :
  k ∈ group_keys keys → isna k = false.
Proof.
  induction keys as [|k0 keys IH]; cbn [group_keys];
    [by intros ?%elem_of_nil |].
  destruct (isna k0 || existsb (cell_eqb k0) (group_keys keys)) eqn:Hk0;
    [done |].
  apply orb_false_iff in Hk0 as [Hna _].
  intros [->|?]%elem_of_cons; [done | by apply IH].
Qed.

Lemma cell_eqb_missing (k0 k : cell) :
  isna k0 = false → isna k = true → cell_eqb k0 k = false.
Proof.
  destruct k0 as [|x0|b0|s0], k as [|x|b|s]; cbn; try done.
  - intros _ Hx. by apply eqb_NaN_r, is_nan_NaN.
  - intros _ Hx. rewrite FloatAxioms.eqb_spec.
    apply is_nan_NaN in Hx. unfold is_NaN in Hx. rewrite Hx.
    by destruct b0.
Qed.

(** A missing key finds no median. *)
Lemma map_lookup_missing (keys : list cell) (vals : list float) (k : cell) :
  isna k = true → map_lookup (groupby_median keys vals) k = nan.
Proof.
  intros Hk. unfold map_lookup, groupby_median.
  pose proof (group_keys_notna keys) as Hkeys.
  induction (group_keys keys) as [|k0 ks IH]; [done |].
  rewrite fmap_cons. cbn [List.find fst].
  rewrite cell_eqb_missing; [|apply Hkeys; left | done].
  apply IH. intros k' Hk'. apply Hkeys. by right.
Qed.

Lemma cell_eqb_str (k : cell) (s : string) :
  cell_eqb k (CStr s) = true ↔ k = CStr s.
Proof.
  destruct k as [|x|b|s0]; cbn; try (split; [done | discriminate]).
  rewrite String.eqb_eq. split; [by intros -> | by intros [= ->]].
Qed.

(** Every string of the key column is the key of a group. *)
Lemma group_keys_str (keys : list cell) (s : string) :
  CStr s ∈ keys → CStr s ∈ group_keys keys.
Proof.
  induction keys as [|k0 keys IH]; [by intros ?%elem_of_nil |].
  cbn [group_keys]. intros [<-|Hin]%elem_of_cons.
  - cbn [isna orb].
    destruct (existsb (cell_eqb (CStr s)) (group_keys keys)) eqn:Hex;
      [|by left].
    apply existsb_exists in Hex as (k & Hk & Heq).
    destruct k as [|x|b|s0]; try discriminate.
    cbn in Heq. apply String.eqb_eq in Heq as <-. by apply list_elem_of_In.
  - destruct (isna k0 || existsb (cell_eqb k0) (group_keys keys));
      [by apply IH | right; by apply IH].
Qed.

(** A row whose key is a string is given the median of its group: of the
    values of the rows with that key. *)
Lemma map_lookup_str (keys : list cell) (vals : list float) (s : string) :
  CStr s ∈ keys →
  map_lookup (groupby_median keys vals) (CStr s)
  = median (group_values keys vals (CStr s)).
Proof.
  intros Hin%group_keys_str. unfold map_lookup, groupby_median.
  induction (group_keys keys) as [|k0 ks IH]; [by apply elem_of_nil in Hin |].
  rewrite fmap_cons. cbn [List.find fst].
  destruct (cell_eqb k0 (CStr s)) eqn:Heq.
  - apply cell_eqb_str in Heq as ->. done.
  - apply elem_of_cons in Hin as [<-|Hin]; [|by apply IH].
    assert (cell_eqb (CStr s) (CStr s) = true) by by apply cell_eqb_str.
    congruence.
Qed.

(** *** [Series.apply] *)

Lemma map_result_all_ok {A B} (g : A → result B) (xs : list A) :
  (∀ i x, xs !! i = Some x → ∃ y, g x = Ok y) →
  ∃ ys, map_result g xs = Ok ys ∧ length ys = length xs ∧
        ∀ i x, xs !! i = Some x → ∃ y, g x = Ok y ∧ ys !! i = Some y.
Proof.
  induction xs as [|x xs IH]; intros Hall.
  - exists []. by repeat split.
  - destruct (Hall 0 x eq_refl) as [y Hy].
    destruct IH as (ys & Hys & Hlen & Hrow);
      [intros i x' Hx'; by apply (Hall (S i)) |].
    exists (y :: ys). cbn [map_result]. rewrite Hy, Hys.
    split; [done |]. split; [cbn; by rewrite Hlen |].
    intros [|i] x' Hx'; cbn in Hx'.
    + injection Hx' as <-. eauto.
    + by apply Hrow.
Qed.

Lemma map_result_one_err {A B} (g : A → result B) (xs : list A) i x e :
  xs !! i = Some x → g x = Err e → ∃ e', map_result g xs = Err e'.
Proof.
  revert i. induction xs as [|x0 xs IH]; intros [|i] Hx He; try done.
  - injection Hx as ->. cbn [map_result]. rewrite He. eauto.
  - cbn [map_result]. destruct (g x0) as [y|e0]; [|eauto].
    destruct (IH i Hx He) as [e' ->]. eauto.
Qed.

(** What the inferred dtype makes of one value. *)
Lemma infer_dtype_lookup (ys : list cell) (i : nat) (y : cell) :
  ys !! i = Some y →
  infer_dtype ys !! i = Some y ∨
  (y = CNone ∧ infer_dtype ys !! i = Some (CFloat nan)).
Proof.
  intros Hy. unfold infer_dtype.
  destruct (forallb _ ys && existsb is_float ys); [|by left].
  rewrite list_lookup_fmap, Hy. destruct y; cbn; auto.
Qed.

Lemma infer_dtype_length (ys : list cell) :
  length (infer_dtype ys) = length ys.
Proof.
  unfold infer_dtype.
  destruct (forallb _ ys && existsb is_float ys); [|done].
  by rewrite length_fmap.
Qed.

(** The numeric branch of [_apply_format_string], from the outcome of
    its [apply]. *)
Lemma format_numeric_run df col pattern repl rule_id description reasoning
    σ f c :
  frames σ !! df = Some f →
  f !! col = Some c →
  contains_percent repl = true →
  let entry :=
    {| e_rule_id := rule_id; e_type := "format_string"; e_column := col;
       e_flagged_count := None; e_imputed_count := None;
       e_description := description; e_reasoning := reasoning |} in
  _apply_format_string df col pattern (Some repl) rule_id description
                       reasoning σ =
  match map_result (format_numeric repl) c with
  | Ok ys => Returns tt (logged (written σ df (<[col := infer_dtype ys]> f))
                                entry)
  | Err e =>
      Returns tt {| frames := frames σ; log := log σ ++ [entry];
                    warnings := warnings σ
                                ++ [FormatStringFailed rule_id col e] |}
  end.
Proof.
  intros Hf Hc Hpercent entry. unfold _apply_format_string.
  rewrite Hpercent, run_bind. unfold try_except.
  rewrite run_bind, (run_getitem _ _ _ _ _ Hf Hc), run_bind.
  unfold series_apply.
  destruct (map_result (format_numeric repl) c) as [ys|e]; cbn [mbind result_bind lift].
  - by rewrite (run_setitem _ _ _ _ _ Hf).
  - done.
Qed.

(** [_apply_format_string] never raises: what its [try] block raises is
    caught and sent to the logger. *)
Lemma format_string_returns df col pattern replacement rule_id description
    reasoning σ :
  ∃ σ', _apply_format_string df col pattern replacement rule_id description
                             reasoning σ = Returns tt σ'.
Proof.
  unfold _apply_format_string. rewrite run_bind. unfold try_except.
  match goal with
  | |- context [match ?body σ with _ => _ end] =>
      destruct (body σ) as [[] σ1|e σ1]
  end; cbn; eauto.
Qed.

(** The loop of [apply_rules] while it is in the rule [rule], the rules
    [before] done and the rules [after] to come. *)
Lemma apply_rules_at_rule (self : RuleApplier) df σ f0 before after rule σ0 :
  frames σ !! df = Some f0 →
  rules self = before ++ rule :: after →
  let l := fresh (dom (frames σ)) in
  for_each before (rule_body l) (working_copy σ f0) = Returns tt σ0 →
  apply_rules self df σ =
  match rule_body l rule σ0 with
  | Returns _ σ1 =>
      match for_each after (rule_body l) σ1 with
      | Returns _ σ2 => Returns (l, log σ2) σ2
      | Raises e σ2 => Raises e σ2
      end
  | Raises e σ1 => Raises e σ1
  end.
Proof.
  intros Hf Hrules l Hbefore.
  rewrite (apply_rules_run _ _ _ _ Hf), Hrules, for_each_app. fold l.
  rewrite Hbefore. cbn [for_each]. rewrite run_bind.
  by destruct (rule_body l rule σ0) as [[] σ1|e σ1].
Qed.

(** The loop of [apply_rules] at the pair of [rule] and [col], the rules
    [before] and the columns [cs1] of [rule] done: the call goes on when
    the turn of the pair returns and raises what the turn raises. *)
Lemma apply_rules_at_pair (self : RuleApplier) df σ f0 before after rule
    cs1 cs2 col σ0 σ1 :
  frames σ !! df = Some f0 →
  rules self = before ++ rule :: after →
  default [] (r_columns rule) = cs1 ++ col :: cs2 →
  let l := fresh (dom (frames σ)) in
  let turn :=
    rule_on_column l (lower (default "transformation" (r_rule_type rule)))
      (r_pattern rule) (r_replacement rule) (r_rule_id rule)
      (default "" (r_description rule)) (default "" (r_reasoning rule))
      (default false (r_flag_on_match rule)) in
  for_each before (rule_body l) (working_copy σ f0) = Returns tt σ0 →
  for_each cs1 turn σ0 = Returns tt σ1 →
  (∃ f, frames σ1 !! l = Some f) ∧
  apply_rules self df σ =
  match turn col σ1 with
  | Returns _ σ2 =>
      match for_each cs2 turn σ2 with
      | Returns _ σ3 =>
          match for_each after (rule_body l) σ3 with
          | Returns _ σ4 => Returns (l, log σ4) σ4
          | Raises e σ4 => Raises e σ4
          end
      | Raises e σ3 => Raises e σ3
      end
  | Raises e σ2 => Raises e σ2
  end.
Proof.
  intros Hf Hrules Hcols l turn Hbefore Hcs1. split.
  - pose proof (confined_for_each l before (rule_body l)
                  (rule_body_confined l) (working_copy σ f0)) as H0.
    rewrite Hbefore in H0. destruct H0 as [_ H0].
    destruct (H0 f0) as (f1 & Hf1 & _); [apply lookup_insert_eq |].
    pose proof (confined_for_each l cs1 turn
                  (rule_on_column_confined l _ _ _ _ _ _ _) σ0) as H1.
    rewrite Hcs1 in H1. destruct H1 as [_ H1].
    destruct (H1 f1 Hf1) as (f2 & Hf2 & _). eauto.
  - rewrite (apply_rules_at_rule self df σ f0 before after rule σ0 Hf Hrules
               Hbefore). fold l.
    assert (rule_body l rule σ0 = for_each (cs1 ++ col :: cs2) turn σ0) as ->.
    { unfold rule_body. rewrite Hcols. by destruct cs1. }
    rewrite for_each_app, Hcs1. cbn [for_each]. rewrite run_bind.
    destruct (turn col σ1) as [[] σ2|e σ2]; [|done].
    by destruct (for_each cs2 turn σ2) as [[] σ3|e σ3].
Qed.

End Loop.

(** * The claims *)

(** ** C8: the caller's table is never written to *)

(** C8. [apply_rules] never mutates the caller's table: whether it returns
    or raises, the frame the caller passed, and every other frame that was
    in the heap, is as it was; what it returns is a reference to a new
    frame. With no rules, that new frame has the content of the caller's
    and the log is empty. *)
Theorem apply_rules_leaves_input `{RT : PyRuntime}
    (self : RuleApplier) (df : loc) (σ : state) (f : frame) :
  frames σ !! df = Some f →
  match apply_rules self df σ with
  | Returns (l, lg) σ' =>
      l ≠ df ∧ frames σ !! l = None ∧ is_Some (frames σ' !! l) ∧
      frames σ' !! df = Some f ∧
      ∀ l', l' ≠ l → frames σ' !! l' = frames σ !! l'
  | Raises _ σ' =>
      frames σ' !! df = Some f ∧
      ∀ l', is_Some (frames σ !! l') → frames σ' !! l' = frames σ !! l'
  end ∧
  (rules self = [] →
   ∃ l σ', apply_rules self df σ = Returns (l, []) σ' ∧
           l ≠ df ∧ frames σ' !! l = Some f ∧ frames σ' !! df = Some f).
Proof.
  intros Hf. rewrite (apply_rules_run _ _ _ _ Hf).
  set (l := fresh (dom (frames σ))).
  assert (frames σ !! l = None) as Hfresh by apply fresh_loc_unused.
  assert (l ≠ df) as Hne by congruence.
  split.
  - pose proof (confined_for_each l (rules self) (rule_body l)
                  (rule_body_confined l) (working_copy σ f)) as Hc.
    destruct (for_each _ _ _) as [[] σ'|e σ']; destruct Hc as [Hother Hown].
    + destruct (Hown f) as (f' & Hf' & _); [apply lookup_insert_eq |].
      repeat split; eauto.
      * rewrite Hother by done. simpl. fold l. by rewrite lookup_insert_ne.
      * intros l' Hl'. rewrite Hother by done. simpl. fold l.
        by rewrite lookup_insert_ne.
    + split.
      * rewrite Hother by done. simpl. fold l. by rewrite lookup_insert_ne.
      * intros l' [f' Hl']. assert (l' ≠ l) by congruence.
        rewrite Hother by done. simpl. fold l. by rewrite lookup_insert_ne.
  - intros ->. simpl. eexists _, _. split; [done |]. simpl. fold l.
    rewrite lookup_insert_eq, lookup_insert_ne by done. done.
Qed.

Lemma apply_rules_leaves_input_witness :
  frames heap0 !! 0 = Some sales ∧
  ∃ l σ', apply_rules (RT := reference_runtime)
            {| rules_path := "rules.json"; rules := [] |} 0 heap0
          = Returns (l, []) σ' ∧
          l ≠ 0 ∧ frames σ' !! l = Some sales ∧ frames σ' !! 0 = Some sales.
Proof.
  split; [reflexivity |].
  apply (apply_rules_leaves_input (RT := reference_runtime)
           {| rules_path := "rules.json"; rules := [] |} 0 heap0 sales);
    reflexivity.
Defined.

(** ** C6: one log entry per pair that is dispatched and returns *)

(** C6, as amended. For every pair of a rule and one of its columns that
    the loop of [apply_rules] reaches (the rules before it and the columns
    of the rule before it done, the working frame still there): when the
    column is absent from the working table, the pair is skipped with the
    warning of a missing column; when the column is there and the rule
    type is none of the four known ones, the pair is skipped with the
    warning of an unknown rule type; in both cases nothing is logged,
    nothing is raised and no frame changes. A [format_string] rule on a
    column that is there always returns, with exactly one entry, of this
    rule and this column, appended to the log. The three other handlers
    either return, with exactly one such entry appended, or raise: then no
    entry is appended and the whole call of [apply_rules] raises that
    exception. *)
Theorem rule_on_column_log_entries `{RT : PyRuntime}
    (self : RuleApplier) (df : loc) (σ : state) (f0 : frame)
    (before after : list rule) (rule : rule) (cs1 cs2 : list string)
    (col : string) (σ0 σ1 : state) :
  frames σ !! df = Some f0 →
  rules self = before ++ rule :: after →
  default [] (r_columns rule) = cs1 ++ col :: cs2 →
  let l := fresh (dom (frames σ)) in
  let rule_type := lower (default "transformation" (r_rule_type rule)) in
  let turn :=
    rule_on_column l rule_type (r_pattern rule) (r_replacement rule)
      (r_rule_id rule) (default "" (r_description rule))
      (default "" (r_reasoning rule)) (default false (r_flag_on_match rule)) in
  for_each before (rule_body l) (working_copy σ f0) = Returns tt σ0 →
  for_each cs1 turn σ0 = Returns tt σ1 →
  ∃ f, frames σ1 !! l = Some f ∧
    (f !! col = None →
     turn col σ1
     = Returns tt {| frames := frames σ1; log := log σ1;
                     warnings := warnings σ1
                                 ++ [ColumnMissing col (r_rule_id rule)] |}) ∧
    (is_Some (f !! col) → ¬ known_rule_type rule_type →
     turn col σ1
     = Returns tt {| frames := frames σ1; log := log σ1;
                     warnings := warnings σ1
                                 ++ [UnknownRuleType rule_type
                                       (r_rule_id rule)] |}) ∧
    (is_Some (f !! col) → rule_type = RuleType.FORMAT_STRING →
     ∃ σ2 entry,
       turn col σ1 = Returns tt σ2 ∧ log σ2 = log σ1 ++ [entry] ∧
       e_rule_id entry = r_rule_id rule ∧ e_column entry = col) ∧
    (is_Some (f !! col) → known_rule_type rule_type →
     match turn col σ1 with
     | Returns _ σ2 =>
         ∃ entry, log σ2 = log σ1 ++ [entry] ∧
                  e_rule_id entry = r_rule_id rule ∧ e_column entry = col
     | Raises e σ2 =>
         log σ2 = log σ1 ∧ apply_rules self df σ = Raises e σ2
     end).
Proof.
  intros Hf Hrules Hcols l rule_type turn Hbefore Hcs1.
  destruct (apply_rules_at_pair self df σ f0 before after rule cs1 cs2 col
              σ0 σ1 Hf Hrules Hcols Hbefore Hcs1) as [[f Hf1] Hrun].
  fold l rule_type turn in Hf1, Hrun.
  exists f. split; [done |]. repeat split.
  - intros Hc. subst turn.
    by rewrite (rule_on_column_absent _ _ _ _ _ _ _ _ _ _ _ Hf1 Hc).
  - intros Hc Hunknown. subst turn.
    rewrite (rule_on_column_present _ _ _ _ _ _ _ _ _ _ _ Hf1 Hc).
    unfold known_rule_type in Hunknown.
    repeat case_decide; try done; exfalso; apply Hunknown; set_solver.
  - intros Hc Htype. subst turn.
    rewrite (rule_on_column_present _ _ _ _ _ _ _ _ _ _ _ Hf1 Hc), Htype.
    rewrite decide_False, decide_False, decide_True by done.
    destruct (format_string_returns l col (r_pattern rule)
                (r_replacement rule) (r_rule_id rule)
                (default "" (r_description rule))
                (default "" (r_reasoning rule)) σ1) as [σ2 Hret].
    pose proof (format_string_logs_one l col (r_pattern rule)
                  (r_replacement rule) (r_rule_id rule)
                  (default "" (r_description rule))
                  (default "" (r_reasoning rule)) σ1) as Hone.
    rewrite Hret in Hone. destruct Hone as (_ & entry & Hlog & Hid & Hcol).
    by exists σ2, entry.
  - intros Hc Hknown. rewrite Hrun. subst turn.
    rewrite (rule_on_column_present _ _ _ _ _ _ _ _ _ _ _ Hf1 Hc).
    unfold known_rule_type in Hknown.
    repeat case_decide.
    + pose proof (anomaly_flag_logs_one l col (r_pattern rule)
                    (r_rule_id rule) (default "" (r_description rule))
                    (default "" (r_reasoning rule))
                    (default false (r_flag_on_match rule)) σ1) as H'.
      destruct (_apply_anomaly_flag _ _ _ _ _ _ _ σ1) as [[] ?|? ?]; tauto.
    + pose proof (imputation_logs_one l col (r_pattern rule)
                    (r_replacement rule) (r_rule_id rule)
                    (default "" (r_description rule))
                    (default "" (r_reasoning rule)) σ1) as H'.
      destruct (_apply_imputation _ _ _ _ _ _ _ σ1) as [[] ?|? ?]; tauto.
    + pose proof (format_string_logs_one l col (r_pattern rule)
                    (r_replacement rule) (r_rule_id rule)
                    (default "" (r_description rule))
                    (default "" (r_reasoning rule)) σ1) as H'.
      destruct (_apply_format_string _ _ _ _ _ _ _ σ1) as [[] ?|? ?]; tauto.
    + pose proof (transformation_logs_one l col (r_pattern rule)
                    (r_replacement rule) (r_rule_id rule)
                    (default "" (r_description rule))
                    (default "" (r_reasoning rule)) σ1) as H'.
      destruct (_apply_transformation _ _ _ _ _ _ _ σ1) as [[] ?|? ?]; tauto.
    + exfalso. revert Hknown. rewrite !elem_of_cons, elem_of_nil. tauto.
Qed.

Lemma rule_on_column_log_entries_witness :
  let self := {| rules_path := "rules.json";
                 rules := [normalize_category; invalid_regex_rule] |} in
  let σ1 := after_normalize_category in
  let turn :=
    rule_on_column (RT := reference_runtime) 1 "transformation"
      (Some "invalid[regex") (Some "\1") (Some "normalize_category")
      "Convert Category to title case" "Standardize category names" false in
  for_each [normalize_category] (rule_body (RT := reference_runtime) 1)
           (working_copy heap0 sales) = Returns tt σ1 ∧
  ∃ f, frames σ1 !! 1 = Some f ∧
    (is_Some (f !! "Category") → known_rule_type "transformation" →
     match turn "Category" σ1 with
     | Returns _ σ2 =>
         ∃ entry, log σ2 = log σ1 ++ [entry] ∧
                  e_rule_id entry = Some "normalize_category" ∧
                  e_column entry = "Category"
     | Raises e σ2 =>
         log σ2 = log σ1 ∧
         apply_rules (RT := reference_runtime) self 0 heap0 = Raises e σ2
     end).
Proof.
  intros self σ1 turn. split; [reflexivity |].
  destruct (rule_on_column_log_entries (RT := reference_runtime) self 0 heap0
              sales [normalize_category] [] invalid_regex_rule [] []
              "Category" σ1 σ1 eq_refl eq_refl eq_refl eq_refl eq_refl)
    as (f & Hf & _ & _ & _ & H).
  exists f. split; [exact Hf | exact H].
Defined.

(** C6, the claim as stated fails: each pair below has its column in the
    table and a known rule type, and appends no log entry, the pattern not
    being a regular expression: the handlers of [transformation] (the rule
    of [test_invalid_regex_pattern]), of [anomaly_flag] and of [imputation]
    raise, and so does [apply_rules]. *)
Lemma invalid_pattern_appends_no_entry :
  let turn rule_type :=
    rule_on_column (RT := reference_runtime) 0 rule_type
      (Some "invalid[regex") (Some "\1") (Some "normalize_category")
      "Convert Category to title case" "Standardize category names" false
      "Category" heap0 in
  is_Some (sales !! "Category") ∧
  known_rule_type "transformation" ∧
  turn "transformation" = Raises ReError heap0 ∧
  turn "anomaly_flag" = Raises ReError heap0 ∧
  turn "imputation" = Raises ReError heap0 ∧
  ∃ σ', apply_rules (RT := reference_runtime)
          {| rules_path := "rules.json"; rules := [invalid_regex_rule] |}
          0 heap0 = Raises ReError σ' ∧ log σ' = [].
Proof.
  intros turn.
  split; [by eexists |]. split; [unfold known_rule_type; set_solver |].
  split; [reflexivity |]. split; [reflexivity |]. split; [reflexivity |].
  eexists. split; reflexivity.
Qed.

(** ** C5: an invalid pattern on a transformation rule is fatal *)

(** C5. When the rule list holds a transformation rule whose pattern
    [re.compile] refuses and one of whose columns is in the table,
    [apply_rules] raises: no table and no log are returned. *)
Theorem invalid_transformation_pattern_aborts `{RT : PyRuntime}
    (self : RuleApplier) (df : loc) (σ : state) (f : frame)
    (rule : rule) (col p : string) :
  frames σ !! df = Some f →
  rule ∈ rules self →
  lower (default "transformation" (r_rule_type rule)) = RuleType.TRANSFORMATION →
  col ∈ default [] (r_columns rule) →
  is_Some (f !! col) →
  r_pattern rule = Some p →
  re_compile p = None →
  ∃ e σ', apply_rules self df σ = Raises e σ'.
Proof.
  intros Hf Hrule Hty Hcol Hc Hp Hbad.
  rewrite (apply_rules_run _ _ _ _ Hf).
  set (l := fresh (dom (frames σ))).
  assert (∃ e σ', for_each (rules self) (rule_body l) (working_copy σ f)
                  = Raises e σ') as (e & σ' & ->); [|eauto].
  apply (for_each_reaches_raise _ _ (holds_column l col) rule Hrule).
  - intros y σ1 HI.
    apply confined_keeps_column; [apply rule_body_confined | done].
  - intros σ1 HI. unfold rule_body.
    destruct (default [] (r_columns rule)) as [|c0 cols] eqn:Hcols;
      [by apply elem_of_nil in Hcol |].
    apply (for_each_reaches_raise _ _ (holds_column l col) col Hcol); [| |done].
    + intros y σ2 HI2.
      apply confined_keeps_column; [apply rule_on_column_confined | done].
    + intros σ2 (f2 & Hf2 & Hc2).
      rewrite (rule_on_column_present _ _ _ _ _ _ _ _ _ _ _ Hf2 Hc2), Hty, Hp.
      destruct Hc2 as [c Hc2].
      destruct (str_replace_invalid p (r_replacement rule) (astype_str c) Hbad)
        as [e He].
      exists e, σ2. repeat case_decide; try discriminate; [|done].
      by apply (transformation_raises _ _ _ _ _ _ _ _ f2 c).
  - exists f. split; [apply lookup_insert_eq | done].
Qed.

Lemma invalid_transformation_pattern_aborts_witness :
  ∃ e σ', apply_rules (RT := reference_runtime)
            {| rules_path := "rules.json";
               rules := [normalize_category; invalid_regex_rule] |} 0 heap0
          = Raises e σ'.
Proof.
  apply (invalid_transformation_pattern_aborts (RT := reference_runtime)
           {| rules_path := "rules.json";
              rules := [normalize_category; invalid_regex_rule] |}
           0 heap0 sales invalid_regex_rule "Category" "invalid[regex").
  - reflexivity.
  - set_solver.
  - reflexivity.
  - set_solver.
  - by eexists.
  - reflexivity.
  - reflexivity.
Defined.

(** ** C1: the flag column of an anomaly rule *)

(** C1. An anomaly_flag rule, its id not the reserved one, applied to a
    column of the table as the rules before it left it: [apply_rules] adds
    the boolean column [<column>_flag_<rule_id>], row by row "the text of
    the value matches the pattern" when [flag_on_match] is true and "does
    not match" when it is false or absent; the column itself and every other
    column are as they were; and the entry appended to the log carries, as
    [flagged_count], the number of rows marked. *)
Theorem anomaly_flag_adds_flag_column `{RT : PyRuntime}
    (self : RuleApplier) (rule : rule) (df l : loc) (σ σ1 : state)
    (lg : list log_entry) (f : frame) (col rule_id p : string) (rx : regex)
    (c : list cell) :
  apply_rules self df σ = Returns (l, lg) σ1 →
  frames σ1 !! l = Some f →
  f !! col = Some c →
  lower (default "transformation" (r_rule_type rule)) = RuleType.ANOMALY_FLAG →
  r_columns rule = Some [col] →
  r_rule_id rule = Some rule_id →
  rule_id ≠ "flag_total_spent_mismatch" →
  r_pattern rule = Some p →
  re_compile p = Some rx →
  let invalid (v : cell) : bool :=
    if default false (r_flag_on_match rule)
    then re_match rx (py_str v) else negb (re_match rx (py_str v)) in
  let flag_col := col +:+ "_flag_" +:+ rule_id in
  ∃ σ2 f' entry,
    apply_rules {| rules_path := rules_path self;
                   rules := rules self ++ [rule] |} df σ
    = Returns (l, lg ++ [entry]) σ2 ∧
    frames σ2 !! l = Some f' ∧
    f' !! flag_col = Some ((λ v, CBool (invalid v)) <$> c) ∧
    f' !! col = Some c ∧
    (∀ other, other ≠ flag_col → f' !! other = f !! other) ∧
    e_rule_id entry = Some rule_id ∧ e_type entry = "anomaly_flag" ∧
    e_column entry = col ∧
    e_flagged_count entry = Some (length (filter (λ v, invalid v = true) c)).
Proof.
  intros Hrun Hf Hc Hty Hcols Hid Hne Hp Hrx invalid flag_col.
  destruct (apply_rules_one_more self rule df σ l lg σ1 f col Hrun Hf
              (mk_is_Some _ _ Hc) Hcols) as [-> ->].
  rewrite (rule_on_column_present _ _ _ _ _ _ _ _ _ _ _ Hf (mk_is_Some _ _ Hc)).
  rewrite Hty, decide_True by done.
  assert (str_match (r_pattern rule) (astype_str c)
          = Ok (re_match rx <$> astype_str c)) as Hm
    by (unfold str_match; by rewrite Hp, Hrx).
  assert (r_rule_id rule ≠ Some "flag_total_spent_mismatch") as Hne'
    by (rewrite Hid; congruence).
  rewrite (anomaly_flag_run _ _ _ _ _ _ _ _ _ _ _ Hf Hc Hne' Hm).
  rewrite Hid. cbn [fstring default].
  set (mask := if default false (r_flag_on_match rule)
               then re_match rx <$> astype_str c
               else negb <$> (re_match rx <$> astype_str c)).
  assert (mask = invalid <$> c) as Hmask.
  { subst mask invalid. unfold astype_str.
    destruct (default false (r_flag_on_match rule));
      rewrite <- !list_fmap_compose; done. }
  eexists _, _, _. split; [reflexivity |]. cbn.
  rewrite lookup_insert_eq. split; [done |].
  fold flag_col. rewrite lookup_insert_eq.
  assert (flag_col ≠ col) as Hfresh by apply (flag_col_fresh col (Some rule_id)).
  rewrite Hmask, <- list_fmap_compose.
  repeat split; try done.
  - by rewrite lookup_insert_ne.
  - intros other Hother. by rewrite lookup_insert_ne.
  - by rewrite mask_sum_fmap.
Qed.

Lemma anomaly_flag_adds_flag_column_witness :
  ∃ σ2 f' entry,
    apply_rules (RT := reference_runtime)
      {| rules_path := "rules.json"; rules := [] ++ [flag_missing_item] |}
      0 heap0
    = Returns (1, [] ++ [entry]) σ2 ∧
    frames σ2 !! 1 = Some f' ∧
    f' !! "Item_flag_flag_missing_item"
    = Some [CBool false; CBool false; CBool true] ∧
    f' !! "Item" = Some [CStr "Item_1_FOOD"; CStr "Item_2_BEV"; CNone] ∧
    (∀ other, other ≠ "Item_flag_flag_missing_item" →
              f' !! other = sales !! other) ∧
    e_rule_id entry = Some "flag_missing_item" ∧
    e_type entry = "anomaly_flag" ∧ e_column entry = "Item" ∧
    e_flagged_count entry = Some 1.
Proof.
  apply (anomaly_flag_adds_flag_column (RT := reference_runtime)
           {| rules_path := "rules.json"; rules := [] |} flag_missing_item
           0 1 heap0 (working_copy heap0 sales) [] sales
           "Item" "flag_missing_item" "None" "None"
           [CStr "Item_1_FOOD"; CStr "Item_2_BEV"; CNone]);
    try reflexivity.
  discriminate.
Defined.

(** ** C10: the default rule type, and the case of rule types *)

(** C10. A rule without a [rule_type] field, applied to a column of the
    table, is handed to the transformation handler: what [apply_rules]
    returns is what [_apply_transformation] leaves, and when the replacement
    goes through, the column holds the rewritten texts, the log has one more
    entry of type [transformation] and no warning was sent. The rule type is
    lowercased before it is compared: two spellings with the same lowercase
    form run the same, and [ANOMALY_FLAG] runs the anomaly-flag handler. *)
Theorem rule_type_default_and_case `{RT : PyRuntime}
    (self : RuleApplier) (rule : rule) (df l : loc) (σ σ1 : state)
    (lg : list log_entry) (f : frame) (col : string) :
  apply_rules self df σ = Returns (l, lg) σ1 →
  frames σ1 !! l = Some f →
  is_Some (f !! col) →
  r_columns rule = Some [col] →
  let run r :=
    apply_rules {| rules_path := rules_path self; rules := rules self ++ [r] |}
                df σ in
  let after (handler : M unit) : outcome (loc * list log_entry) :=
    match handler σ1 with
    | Returns _ σ2 => Returns (l, log σ2) σ2
    | Raises e σ2 => Raises e σ2
    end in
  let description := default "" (r_description rule) in
  let reasoning := default "" (r_reasoning rule) in
  run (with_rule_type None rule)
  = after (_apply_transformation l col (r_pattern rule) (r_replacement rule)
             (r_rule_id rule) description reasoning) ∧
  (∀ c c',
     f !! col = Some c →
     str_replace (r_pattern rule) (r_replacement rule) (astype_str c) = Ok c' →
     ∃ σ2 entry,
       run (with_rule_type None rule) = Returns (l, lg ++ [entry]) σ2 ∧
       frames σ2 !! l = Some (<[col := CStr <$> c']> f) ∧
       e_type entry = "transformation" ∧ e_column entry = col ∧
       warnings σ2 = warnings σ1) ∧
  (∀ ty ty',
     lower ty = lower ty' →
     run (with_rule_type (Some ty) rule) = run (with_rule_type (Some ty') rule)) ∧
  lower "ANOMALY_FLAG" = RuleType.ANOMALY_FLAG ∧
  run (with_rule_type (Some "ANOMALY_FLAG") rule)
  = after (_apply_anomaly_flag l col (r_pattern rule) (r_rule_id rule)
             description reasoning (default false (r_flag_on_match rule))).
Proof.
  intros Hrun Hf Hc Hcols run after description reasoning.
  assert (∀ t, run (with_rule_type t rule)
               = after (rule_on_column l (lower (default "transformation" t))
                          (r_pattern rule) (r_replacement rule) (r_rule_id rule)
                          description reasoning
                          (default false (r_flag_on_match rule)) col)) as Hone.
  { intros t. subst run after. cbv beta.
    by destruct (apply_rules_one_more self (with_rule_type t rule) df σ l lg σ1
                   f col Hrun Hf Hc Hcols) as [_ ->]. }
  assert (lg = log σ1) as ->
    by apply (apply_rules_snoc self rule df σ l lg σ1 Hrun).
  assert (run (with_rule_type None rule)
          = after (_apply_transformation l col (r_pattern rule)
                     (r_replacement rule) (r_rule_id rule) description
                     reasoning)) as Hdefault.
  { rewrite Hone. subst after. cbv beta.
    by rewrite (rule_on_column_present _ _ _ _ _ _ _ _ _ _ _ Hf Hc). }
  repeat split.
  - exact Hdefault.
  - intros c c' Hcol Hrepl. rewrite Hdefault. subst after. cbv beta.
    rewrite (transformation_run _ _ _ _ _ _ _ _ _ _ _ Hf Hcol Hrepl).
    eexists _, _. split; [reflexivity |]. cbn. by rewrite lookup_insert_eq.
  - intros ty ty' Hlow. rewrite !Hone. cbn [default from_option id].
    by rewrite Hlow.
  - rewrite Hone. subst after. cbv beta.
    by rewrite (rule_on_column_present _ _ _ _ _ _ _ _ _ _ _ Hf Hc).
Qed.

Lemma rule_type_default_and_case_witness :
  ∃ σ2 entry,
    apply_rules (RT := reference_runtime)
      {| rules_path := "rules.json";
         rules := [] ++ [with_rule_type None normalize_category] |} 0 heap0
    = Returns (1, [] ++ [entry]) σ2 ∧
    frames σ2 !! 1
    = Some (<["Category" := [CStr "Food"; CStr "BEVERAGES"; CStr "Food"]]> sales) ∧
    e_type entry = "transformation" ∧ e_column entry = "Category" ∧
    warnings σ2 = [].
Proof.
  apply (proj1 (proj2
           (rule_type_default_and_case (RT := reference_runtime)
              {| rules_path := "rules.json"; rules := [] |} normalize_category
              0 1 heap0 (working_copy heap0 sales) [] sales "Category"
              eq_refl eq_refl (mk_is_Some _ _ eq_refl) eq_refl))
           [CStr "food"; CStr "BEVERAGES"; CStr "Food"]
           ["Food"; "BEVERAGES"; "Food"]);
    reflexivity.
Defined.

(** ** C9: loading a rules file *)




(** ** C2: the arithmetic check *)

(** C2, as amended. Under the reserved id [flag_total_spent_mismatch], on
    a table whose [Price Per Unit], [Quantity] and target columns are
    float64, the flag column of the target column marks exactly the rows
    where [abs(round(price * quantity, 2) - target) > 0.01], [target] being
    the value of the rule's own column (the total, when the rule names
    [Total Spent]); a row with a missing operand is not marked. A row with
    price 10.5, quantity 2 and target 21.0 is not flagged, and it is flagged
    with target 25.0. [flagged_count] is the number of rows marked. *)
Theorem total_spent_mismatch_flags `{RT : PyRuntime}
    (df : loc) (col : string) (pattern : option string)
    (description reasoning : string) (flag : bool) (σ : state) (f : frame)
    (ps qs ts : list float) :
  frames σ !! df = Some f →
  f !! "Price Per Unit" = Some (CFloat <$> ps) →
  f !! "Quantity" = Some (CFloat <$> qs) →
  f !! col = Some (CFloat <$> ts) →
  ∃ mask entry,
    _apply_anomaly_flag df col pattern (Some "flag_total_spent_mismatch")
                        description reasoning flag σ
    = Returns tt
        (logged (written σ df
                   (<[col +:+ "_flag_flag_total_spent_mismatch"
                      := CBool <$> mask]> f)) entry) ∧
    e_column entry = col ∧
    e_flagged_count entry = Some (length (filter (λ b, b = true) mask)) ∧
    (length ps = length ts → length qs = length ts →
     length mask = length ts) ∧
    (∀ i p q t,
       ps !! i = Some p → qs !! i = Some q → ts !! i = Some t →
       mask !! i
       = Some (PrimFloat.ltb 0.01
                 (PrimFloat.abs (PrimFloat.sub (round2 (PrimFloat.mul p q)) t)))) ∧
    (∀ i p q t,
       ps !! i = Some p → qs !! i = Some q → ts !! i = Some t →
       PrimFloat.is_nan p || PrimFloat.is_nan q || PrimFloat.is_nan t = true →
       mask !! i = Some false) ∧
    (∀ i, ps !! i = Some 10.5%float → qs !! i = Some 2%float →
          ts !! i = Some 21%float → mask !! i = Some false) ∧
    (∀ i, ps !! i = Some 10.5%float → qs !! i = Some 2%float →
          ts !! i = Some 25%float → mask !! i = Some true).
Proof.
  intros Hf Hp Hq Ht.
  rewrite (total_spent_mismatch_run _ _ _ _ _ _ _ _ _ _ _ Hf Hp Hq Ht).
  set (mask := (λ d, PrimFloat.ltb tol (PrimFloat.abs d))
                 <$> zip_with PrimFloat.sub ts
                       (round2 <$> zip_with PrimFloat.mul ps qs)).
  assert (∀ i p q t,
            ps !! i = Some p → qs !! i = Some q → ts !! i = Some t →
            mask !! i
            = Some (PrimFloat.ltb 0.01
                      (PrimFloat.abs (PrimFloat.sub (round2 (PrimFloat.mul p q)) t))))
    as Hrow.
  { intros i p q t Hpi Hqi Hti. subst mask.
    rewrite list_lookup_fmap, lookup_zip_with, Hti. cbn [mbind option_bind].
    rewrite list_lookup_fmap, lookup_zip_with, Hpi. cbn [mbind option_bind].
    rewrite Hqi. cbn. by rewrite abs_sub_comm. }
  eexists mask, _. split; [reflexivity |]. split; [done |].
  split; [cbn; by rewrite mask_sum_count |].
  split; [|split; [exact Hrow |]].
  - intros Hlp Hlq. subst mask.
    rewrite length_fmap, length_zip_with, length_fmap, length_zip_with. lia.
  - split; [|split].
    + intros i p q t Hpi Hqi Hti Hnan. rewrite (Hrow i p q t) by done.
      f_equal. apply ltb_NaN_r, abs_NaN, sub_NaN.
      apply orb_true_iff in Hnan as [Hnan|Hnan];
        [left; apply round2_NaN, mul_NaN;
         apply orb_true_iff in Hnan as [Hnan|Hnan];
         [left | right]; by apply is_nan_NaN
        | right; by apply is_nan_NaN].
    + intros i Hpi Hqi Hti. by rewrite (Hrow i _ _ _ Hpi Hqi Hti).
    + intros i Hpi Hqi Hti. by rewrite (Hrow i _ _ _ Hpi Hqi Hti).
Qed.

Lemma total_spent_mismatch_flags_witness :
  ∃ mask entry,
    _apply_anomaly_flag (RT := reference_runtime) 0 "Total Spent" None
      (Some "flag_total_spent_mismatch") "" "" false heap0
    = Returns tt
        (logged (written heap0 0
                   (<["Total Spent_flag_flag_total_spent_mismatch"
                      := CBool <$> mask]> sales)) entry) ∧
    mask !! 0 = Some false.
Proof.
  destruct (total_spent_mismatch_flags (RT := reference_runtime) 0
              "Total Spent" None "" "" false heap0 sales
              [10.5; 20; 15.753]%float [2; 1; 3]%float [21; 20; nan]%float
              eq_refl eq_refl eq_refl eq_refl)
    as (mask & entry & Hrun & _ & _ & _ & _ & _ & Hrow & _).
  exists mask, entry. split; [exact Hrun | apply Hrow; reflexivity].
Defined.

(** C2, the claim as stated fails: the row has price 10.5, quantity 2 and
    total 21.0, so [abs(round(price * quantity, 2) - total)] is not above
    0.01; the rule carries the reserved id and names the column [Quantity];
    the row is flagged, the quantity being compared with the expected
    total. *)
Lemma mismatch_rule_flags_consistent_row :
  PrimFloat.ltb 0.01
    (PrimFloat.abs (PrimFloat.sub (round2 (PrimFloat.mul 10.5 2)) 21)) = false ∧
  ∃ σ' f' entry,
    apply_rules (RT := reference_runtime)
      {| rules_path := "rules.json"; rules := [mismatch_on_quantity] |} 0 heap1
    = Returns (1, [entry]) σ' ∧
    frames σ' !! 1 = Some f' ∧
    f' !! "Quantity_flag_flag_total_spent_mismatch" = Some [CBool true] ∧
    f' !! "Total Spent" = Some [CFloat 21] ∧
    e_flagged_count entry = Some 1.
Proof.
  split; [reflexivity |]. eexists _, _, _.
  split; [reflexivity |]. split; [reflexivity |]. repeat split; reflexivity.
Qed.

(** ** C3: imputation by the product of price and quantity *)

(** C3. Under the replacement ["[Price Per Unit] * [Quantity]"], on a table
    whose two operand columns are float64, the handler fills exactly the
    rows whose text matches the pattern and whose two operands are present,
    with the product of the operands; every other row keeps its value, a
    matched row with a missing operand included. Price 15.753 and quantity 3
    on a matched row give 47.259. [imputed_count] is the number of matched
    rows, filled or not. *)
Theorem product_imputation_fills `{RT : PyRuntime}
    (df : loc) (col p : string) (rx : regex) (rule_id : option string)
    (description reasoning : string) (σ : state) (f : frame)
    (c : list cell) (ps qs : list float) :
  frames σ !! df = Some f →
  f !! col = Some c →
  f !! "Price Per Unit" = Some (CFloat <$> ps) →
  f !! "Quantity" = Some (CFloat <$> qs) →
  re_compile p = Some rx →
  ∃ c' entry,
    _apply_imputation df col (Some p) (Some "[Price Per Unit] * [Quantity]")
                      rule_id description reasoning σ
    = Returns tt (logged (written σ df (<[col := c']> f)) entry) ∧
    length c' = length c ∧
    (∀ i x price quantity,
       c !! i = Some x → ps !! i = Some price → qs !! i = Some quantity →
       c' !! i
       = Some (if negb (PrimFloat.is_nan price)
                  && negb (PrimFloat.is_nan quantity)
                  && re_match rx (py_str x)
               then CFloat (PrimFloat.mul price quantity) else x)) ∧
    (∀ i x,
       c !! i = Some x → re_match rx (py_str x) = true →
       ps !! i = Some 15.753%float → qs !! i = Some 3%float →
       c' !! i = Some (CFloat 47.259)) ∧
    e_rule_id entry = rule_id ∧ e_column entry = col ∧
    e_imputed_count entry
    = Some (length (filter (λ x, re_match rx (py_str x) = true) c)).
Proof.
  intros Hf Hc Hp Hq Hrx.
  assert (str_match (Some p) (astype_str c) = Ok (re_match rx <$> astype_str c))
    as Hm by (unfold str_match; by rewrite Hrx).
  rewrite (product_imputation_run _ _ _ _ _ _ _ _ _ _ _ _ Hf Hc Hp Hq Hm).
  set (valid := zip_with andb _ _).
  set (c' := loc_assign valid _ c).
  assert (∀ i x price quantity,
            c !! i = Some x → ps !! i = Some price → qs !! i = Some quantity →
            c' !! i
            = Some (if negb (PrimFloat.is_nan price)
                       && negb (PrimFloat.is_nan quantity)
                       && re_match rx (py_str x)
                    then CFloat (PrimFloat.mul price quantity) else x)) as Hrow.
  { intros i x price quantity Hx Hpi Hqi. subst c'.
    rewrite <- loc_select_zip_with.
    apply loc_assign_select_lookup; [|by rewrite lookup_zip_with, Hpi, Hqi | done].
    subst valid. unfold astype_str.
    rewrite !lookup_zip_with, !list_lookup_fmap, Hpi, Hqi, Hx. done. }
  eexists c', _. split; [reflexivity |].
  split; [apply loc_assign_length |]. split; [exact Hrow |].
  split; [|split; [done | split; [done |]]].
  - intros i x Hx Hmatch Hpi Hqi. rewrite (Hrow i x _ _ Hx Hpi Hqi), Hmatch.
    reflexivity.
  - cbn. unfold astype_str. by rewrite <- list_fmap_compose, mask_sum_fmap.
Qed.

Lemma product_imputation_fills_witness :
  ∃ c' entry,
    _apply_imputation (RT := reference_runtime) 0 "Total Spent" (Some "nan")
      (Some "[Price Per Unit] * [Quantity]") (Some "impute_total_spent")
      "" "" heap0
    = Returns tt (logged (written heap0 0 (<["Total Spent" := c']> sales)) entry) ∧
    c' !! 2 = Some (CFloat 47.259) ∧
    e_imputed_count entry = Some 1.
Proof.
  destruct (product_imputation_fills (RT := reference_runtime) 0
              "Total Spent" "nan" "nan" (Some "impute_total_spent") "" ""
              heap0 sales [CFloat 21; CFloat 20; CFloat nan]
              [10.5; 20; 15.753]%float [2; 1; 3]%float
              eq_refl eq_refl eq_refl eq_refl eq_refl)
    as (c' & entry & Hrun & _ & _ & Hrow & _ & _ & Hcount).
  exists c', entry. split; [exact Hrun |].
  split; [apply (Hrow 2 (CFloat nan)); reflexivity | exact Hcount].
Defined.

(** ** C4: imputation by the median of the group, then of the column *)

(** C4. Under the replacement ["<MEDIAN_FROM_GROUP_OR_GLOBAL>"], on a table
    with an [Item] column and a float64 target column: first every row
    whose text matches the pattern takes the median of its group, which
    for a row whose item is a string is the median of the target column
    over the rows with that item, and for a row whose item is missing is
    NaN; the other rows keep their values. Then every row that is NaN
    takes the median of the column as the group step left it, and the rows
    that are not NaN stay as the group step left them. [imputed_count] is
    the number of matched rows. *)
Theorem median_imputation_fills `{RT : PyRuntime}
    (df : loc) (col p : string) (rx : regex) (rule_id : option string)
    (description reasoning : string) (σ : state) (f : frame)
    (items : list cell) (vs : list float) :
  frames σ !! df = Some f →
  f !! col = Some (CFloat <$> vs) →
  f !! "Item" = Some items →
  length items = length vs →
  re_compile p = Some rx →
  let matched v := re_match rx (py_str (CFloat v)) in
  let medians := groupby_median items vs in
  let grouped :=
    zip_with (λ k v, if matched v then map_lookup medians k else v)
             items vs in
  let filled :=
    (λ y, if PrimFloat.is_nan y then median grouped else y) <$> grouped in
  ∃ entry,
    _apply_imputation df col (Some p) (Some "<MEDIAN_FROM_GROUP_OR_GLOBAL>")
                      rule_id description reasoning σ
    = Returns tt (logged (written σ df (<[col := CFloat <$> filled]> f))
                         entry) ∧
    (∀ s, CStr s ∈ items →
          map_lookup medians (CStr s)
          = median (group_values items vs (CStr s))) ∧
    (∀ k, isna k = true → map_lookup medians k = nan) ∧
    (∀ i y, grouped !! i = Some y →
            filled !! i
            = Some (if PrimFloat.is_nan y then median grouped else y)) ∧
    e_rule_id entry = rule_id ∧ e_column entry = col ∧
    e_imputed_count entry
    = Some (length (filter (λ v, matched v = true) vs)).
Proof.
  intros Hf Hc Hi Hlen Hrx matched medians grouped filled.
  assert (str_match (Some p) (astype_str (CFloat <$> vs)) = Ok (matched <$> vs))
    as Hm.
  { unfold str_match, astype_str. rewrite Hrx.
    by rewrite <- !list_fmap_compose. }
  eexists. split.
  { apply (median_imputation_run df col (Some p) rule_id description
             reasoning σ f items vs matched Hf Hc Hi Hlen Hm). }
  split; [intros s Hs; by apply map_lookup_str |].
  split; [intros k Hk; by apply map_lookup_missing |].
  split; [|split; [done | split; [done |]]].
  - intros i y Hy. subst filled. by rewrite list_lookup_fmap, Hy.
  - cbn. by rewrite mask_sum_fmap.
Qed.

Lemma median_imputation_fills_witness :
  ∃ entry,
    _apply_imputation (RT := reference_runtime) 0 "Price Per Unit"
      (Some "nan") (Some "<MEDIAN_FROM_GROUP_OR_GLOBAL>")
      (Some "impute_price") "" "" stock_heap
    = Returns tt
        (logged (written stock_heap 0
                   (<["Price Per Unit" :=
                        CFloat <$> [10; 10; 40; 50; 25; 25]%float]> stock))
                entry) ∧
    e_imputed_count entry = Some 3.
Proof.
  destruct (median_imputation_fills (RT := reference_runtime) 0
              "Price Per Unit" "nan" "nan" (Some "impute_price") "" ""
              stock_heap stock
              [CStr "Tea"; CStr "Tea"; CStr "Coffee"; CStr "Coffee";
               CStr "Cake"; CNone]
              [10; nan; 40; 50; nan; nan]%float
              eq_refl eq_refl eq_refl eq_refl eq_refl)
    as (entry & Hrun & _ & _ & _ & _ & _ & Hcount).
  exists entry. split; [exact Hrun | exact Hcount].
Defined.

(** ** C7: a numeric format directive *)

(** C7, as amended. A [format_string] rule whose replacement contains [%],
    on a column the table has, always returns and logs its entry. When
    [float(replacement % float(x))] succeeds for every value [x] of the
    column that is not missing, every such value is replaced by that
    number, a float and not its text, and every missing value stays
    missing: as it was, or NaN for a [None]; no warning is sent. When it
    fails for some value that is not missing, no frame changes, whatever
    the other values are, and a warning is sent. *)
Theorem format_string_numeric `{RT : PyRuntime}
    (df : loc) (col repl : string) (pattern rule_id : option string)
    (description reasoning : string) (σ : state) (f : frame)
    (c : list cell) :
  frames σ !! df = Some f →
  f !! col = Some c →
  contains_percent repl = true →
  let run := _apply_format_string df col pattern (Some repl) rule_id
                                  description reasoning σ in
  let entry :=
    {| e_rule_id := rule_id; e_type := "format_string"; e_column := col;
       e_flagged_count := None; e_imputed_count := None;
       e_description := description; e_reasoning := reasoning |} in
  ((∀ i x, c !! i = Some x → notna x = true →
           ∃ g, formatted repl x = Ok g) →
   ∃ c',
     run = Returns tt (logged (written σ df (<[col := c']> f)) entry) ∧
     length c' = length c ∧
     (∀ i x g, c !! i = Some x → notna x = true → formatted repl x = Ok g →
               c' !! i = Some (CFloat g)) ∧
     (∀ i x, c !! i = Some x → notna x = false →
             c' !! i = Some x ∨ (x = CNone ∧ c' !! i = Some (CFloat nan)))) ∧
  (∀ i x e0, c !! i = Some x → notna x = true → formatted repl x = Err e0 →
     ∃ e, run = Returns tt {| frames := frames σ; log := log σ ++ [entry];
                              warnings := warnings σ
                                ++ [FormatStringFailed rule_id col e] |}).
Proof.
  intros Hf Hc Hpercent run entry. subst run.
  rewrite (format_numeric_run _ _ _ _ _ _ _ _ _ _ Hf Hc Hpercent).
  fold entry. split.
  - intros Hall.
    destruct (map_result_all_ok (format_numeric repl) c)
      as (ys & -> & Hlen & Hrow).
    { intros i x Hx. unfold format_numeric.
      destruct (notna x) eqn:Hna; [|eauto].
      destruct (Hall i x Hx Hna) as [g ->]. eauto. }
    exists (infer_dtype ys). split; [done |].
    split; [by rewrite infer_dtype_length |]. split.
    + intros i x g Hx Hna Hg. destruct (Hrow i x Hx) as (y & Hy & Hi).
      unfold format_numeric in Hy. rewrite Hna, Hg in Hy.
      injection Hy as <-.
      by destruct (infer_dtype_lookup ys i _ Hi) as [?|[? _]].
    + intros i x Hx Hna. destruct (Hrow i x Hx) as (y & Hy & Hi).
      unfold format_numeric in Hy. rewrite Hna in Hy. injection Hy as <-.
      destruct (infer_dtype_lookup ys i _ Hi) as [?|[? ?]]; auto.
  - intros i x e0 Hx Hna He0.
    destruct (map_result_one_err (format_numeric repl) c i x e0 Hx)
      as [e ->]; [|eauto].
    unfold format_numeric. by rewrite Hna, He0.
Qed.

Lemma format_string_numeric_witness :
  ∃ c',
    _apply_format_string (RT := reference_runtime) 0 "Price Per Unit" None
      (Some "%.2f") (Some "round_price") "" "" heap0
    = Returns tt
        (logged (written heap0 0 (<["Price Per Unit" := c']> sales))
           {| e_rule_id := Some "round_price"; e_type := "format_string";
              e_column := "Price Per Unit"; e_flagged_count := None;
              e_imputed_count := None; e_description := "";
              e_reasoning := "" |}) ∧
    c' !! 2 = Some (CFloat 15.75).
Proof.
  destruct (format_string_numeric (RT := reference_runtime) 0
              "Price Per Unit" "%.2f" None (Some "round_price") "" "" heap0
              sales [CFloat 10.5; CFloat 20; CFloat 15.753]
              eq_refl eq_refl eq_refl) as [Hgood _].
  destruct Hgood as (c' & Hrun & _ & Hrow & _).
  { intros [|[|[|i]]] x Hx Hna; [| | |discriminate Hx]; injection Hx as <-;
      [exists 10.5%float | exists 20%float | exists 15.75%float];
      reflexivity. }
  exists c'. split; [exact Hrun |].
  apply (Hrow 2 (CFloat 15.753) 15.75%float); reflexivity.
Defined.

(** C7, the claim as stated fails. The replacement ["%.2f"] on a column
    that holds 15.753 and a text that is no number leaves 15.753 as it is:
    the directive is applied to no value. The replacement ["$%.2f"] has a
    numeric directive, and on the float64 prices of the fixture it leaves
    15.753 as it is, too: the text it gives is no number. In both cases a
    warning is sent and the entry is logged. *)
Lemma format_directive_not_applied :
  let run repl col σ :=
    _apply_format_string (RT := reference_runtime) 0 col None (Some repl)
      (Some "round_price") "" "" σ in
  let unchanged col σ w :=
    {| frames := frames σ;
       log := [{| e_rule_id := Some "round_price"; e_type := "format_string";
                  e_column := col; e_flagged_count := None;
                  e_imputed_count := None; e_description := "";
                  e_reasoning := "" |}];
       warnings := [w] |} in
  contains_percent "%.2f" = true ∧ contains_percent "$%.2f" = true ∧
  amounts !! "Amount" = Some [CFloat 15.753; CStr "n/a"] ∧
  run "%.2f" "Amount" amounts_heap
  = Returns tt
      (unchanged "Amount" amounts_heap
         (FormatStringFailed (Some "round_price") "Amount" ValueError)) ∧
  sales !! "Price Per Unit" = Some [CFloat 10.5; CFloat 20; CFloat 15.753] ∧
  run "$%.2f" "Price Per Unit" heap0
  = Returns tt
      (unchanged "Price Per Unit" heap0
         (FormatStringFailed (Some "round_price") "Price Per Unit"
            ValueError)).
Proof. intros run unchanged. repeat split; vm_compute; reflexivity. Qed.

